(** * BlackRoad hashing modules: SHA-256 wrapper and SHA-Infinity

    A shallow embedding of [.kanban/hashing/sha256.js] and
    [.kanban/hashing/sha-infinity.js], with the properties of the chained
    hash, the Merkle root, the proof-of-work search, the canonical
    serializer and the state integrity record.

    Conventions of the embedding:
    - a JS string is a [string]: a sequence of code units below 256; the
      UTF-8 encoding that the digest works on is written out;
    - an integer-valued JS number ([depth], [difficulty], [nonce], a
      timestamp) is a [Z];
    - a function that may [throw] returns a [completion];
    - [Date.now()] is an explicit argument [now];
    - the execution environment (is Node's [crypto] there, is
      [window.crypto.subtle] there, how long a string the engine makes) is
      an explicit argument [env]. *)

From Stdlib Require Import ZArith List String Ascii Bool Lia.
From Stdlib Require Import Permutation Sorted.
From Stdlib Require DecimalString HexadecimalString.
Import ListNotations.

Local Open Scope string_scope.
Local Open Scope Z_scope.

(** ** The external digest: SHA-256 (FIPS 180-4)

    Both [crypto.createHash('sha256')] of Node and
    [window.crypto.subtle.digest('SHA-256', _)] of the browser are external
    to the repository.  They are modelled by the function of the standard
    they implement, on bytes held as [Z] in [0, 256) and 32-bit words held
    as [Z] with the wrap-around written out. *)
Module SHA256.

Definition wrap32 (x : Z) : Z := x mod 4294967296.

Definition add32 (x y : Z) : Z := wrap32 (x + y).

Definition rotr (n x : Z) : Z :=
  Z.lor (Z.shiftr x n) (wrap32 (Z.shiftl x (32 - n))).

Definition not32 (x : Z) : Z := 4294967295 - x.

Definition Ch (x y z : Z) : Z :=
  Z.lxor (Z.land x y) (Z.land (not32 x) z).

Definition Maj (x y z : Z) : Z :=
  Z.lxor (Z.lxor (Z.land x y) (Z.land x z)) (Z.land y z).

Definition bsig0 (x : Z) : Z :=
  Z.lxor (Z.lxor (rotr 2 x) (rotr 13 x)) (rotr 22 x).

Definition bsig1 (x : Z) : Z :=
  Z.lxor (Z.lxor (rotr 6 x) (rotr 11 x)) (rotr 25 x).

Definition ssig0 (x : Z) : Z :=
  Z.lxor (Z.lxor (rotr 7 x) (rotr 18 x)) (Z.shiftr x 3).

Definition ssig1 (x : Z) : Z :=
  Z.lxor (Z.lxor (rotr 17 x) (rotr 19 x)) (Z.shiftr x 10).

(** The primes below 312: there are sixty-four of them. *)
Definition is_prime (n : Z) : bool :=
  forallb (fun d => negb (n mod Z.of_nat d =? 0)) (seq 2 (Z.to_nat n - 2)).

Definition primes : list Z :=
  Eval vm_compute in filter is_prime (map Z.of_nat (seq 2 310)).

(** The integer cube root, one bit at a time from bit [bits - 1] down. *)
Fixpoint root3 (bits : nat) (n x : Z) : Z :=
  match bits with
  | O => x
  | S b =>
      let y := x + Z.shiftl 1 (Z.of_nat b) in
      root3 b n (if y * y * y <=? n then y else x)
  end.

(** The first thirty-two bits of the fractional part of the cube root and
    of the square root of [p]. *)
Definition frac_cbrt (p : Z) : Z := wrap32 (root3 40 (Z.shiftl p 96) 0).

Definition frac_sqrt (p : Z) : Z := wrap32 (Z.sqrt (Z.shiftl p 64)).

(** The sixty-four round constants: the cube roots of the primes. *)
Definition K : list Z := Eval vm_compute in map frac_cbrt primes.

(** The eight working variables, also the running hash value. *)
Record state : Type := mkState {
  sa : Z; sb : Z; sc : Z; sd : Z; se : Z; sf : Z; sg : Z; sh : Z
}.

(** The initial hash value: the square roots of the first eight primes. *)
Definition H0 : state :=
  Eval vm_compute in
    mkState (frac_sqrt 2) (frac_sqrt 3) (frac_sqrt 5) (frac_sqrt 7)
            (frac_sqrt 11) (frac_sqrt 13) (frac_sqrt 17) (frac_sqrt 19).

(** Padding: a 1 bit, zeros up to 56 mod 64 bytes, the bit length on 64
    bits, big endian. *)
Definition be_bytes (n : nat) (x : Z) : list Z :=
  map (fun i => Z.land (Z.shiftr x (8 * Z.of_nat i)) 255) (rev (seq 0 n)).

Definition pad (msg : list Z) : list Z :=
  let len := Z.of_nat (List.length msg) in
  (msg ++ [128] ++ repeat 0 (Z.to_nat ((55 - len) mod 64))
       ++ be_bytes 8 (8 * len))%list.

Fixpoint be_word (bs : list Z) (acc : Z) : Z :=
  match bs with
  | [] => acc
  | b :: bs' => be_word bs' (Z.lor (Z.shiftl acc 8) b)
  end.

(** [n] big-endian words off the front of [bs]. *)
Fixpoint words (n : nat) (bs : list Z) : list Z :=
  match n with
  | O => []
  | S n' => be_word (firstn 4 bs) 0 :: words n' (skipn 4 bs)
  end.

(** The message schedule, newest word first: [extend n w] adds [n] words
    to the sixteen (or more) already in [w]. *)
Fixpoint extend (n : nat) (w : list Z) : list Z :=
  match n with
  | O => w
  | S n' =>
      let x := add32 (add32 (ssig1 (nth 1 w 0)) (nth 6 w 0))
                     (add32 (ssig0 (nth 14 w 0)) (nth 15 w 0)) in
      extend n' (x :: w)
  end.

Definition schedule (block : list Z) : list Z :=
  rev (extend 48 (rev (words 16 block))).

Definition round (s : state) (kw : Z * Z) : state :=
  let t1 := add32 (add32 (add32 (sh s) (bsig1 (se s)))
                         (add32 (Ch (se s) (sf s) (sg s)) (fst kw)))
                  (snd kw) in
  let t2 := add32 (bsig0 (sa s)) (Maj (sa s) (sb s) (sc s)) in
  mkState (add32 t1 t2) (sa s) (sb s) (sc s)
          (add32 (sd s) t1) (se s) (sf s) (sg s).

Definition compress (h : state) (block : list Z) : state :=
  let s := fold_left round (combine K (schedule block)) h in
  mkState (add32 (sa h) (sa s)) (add32 (sb h) (sb s))
          (add32 (sc h) (sc s)) (add32 (sd h) (sd s))
          (add32 (se h) (se s)) (add32 (sf h) (sf s))
          (add32 (sg h) (sg s)) (add32 (sh h) (sh s)).

Fixpoint blocks (n : nat) (h : state) (bs : list Z) : state :=
  match n with
  | O => h
  | S n' => blocks n' (compress h (firstn 64 bs)) (skipn 64 bs)
  end.

Definition state_bytes (s : state) : list Z :=
  (be_bytes 4 (sa s) ++ be_bytes 4 (sb s) ++ be_bytes 4 (sc s)
     ++ be_bytes 4 (sd s) ++ be_bytes 4 (se s) ++ be_bytes 4 (sf s)
     ++ be_bytes 4 (sg s) ++ be_bytes 4 (sh s))%list.

(** The thirty-two bytes of the digest of [msg]. *)
Definition digest (msg : list Z) : list Z :=
  let p := pad msg in
  state_bytes (blocks (List.length p / 64)%nat H0 p).

End SHA256.

(** ** JavaScript values the modules work on *)

(** What a call ends in: a value, or a thrown exception.  A promise of an
    [async] function is modelled by the completion it settles to, and
    [await] by [bind]. *)
Inductive exn : Type :=
| Error (message : string)
| RangeError (message : string).

Inductive completion (A : Type) : Type :=
| Return (a : A)
| Throw (e : exn).

Arguments Return {A} a.
Arguments Throw {A} e.

Definition bind {A B : Type} (c : completion A) (k : A -> completion B)
  : completion B :=
  match c with
  | Return a => k a
  | Throw e => Throw e
  end.

Notation "x <- c ;; k" := (bind c (fun x => k))
  (at level 61, c at next level, right associativity).

(** [for (let i = from; i < to; i += step) body], the loop variables
    threaded through [body]. *)
Fixpoint for_iter {S : Type} (n : nat) (i step : Z)
  (body : Z -> S -> completion S) (s : S) : completion S :=
  match n with
  | O => Return s
  | Datatypes.S n' => s' <- body i s ;; for_iter n' (i + step) step body s'
  end.

Definition for_loop {S : Type} (from to step : Z)
  (body : Z -> S -> completion S) (s : S) : completion S :=
  for_iter (Z.to_nat ((to - from + step - 1) / step)) from step body s.

(** [Number.prototype.toString()] on an integer, as string concatenation
    and template literals apply it. *)
Definition decimal (n : Z) : string :=
  DecimalString.NilZero.string_of_int (Z.to_int n).

(** [Number.prototype.toString(16)] on a non-negative integer. *)
Definition toString16 (n : Z) : string :=
  HexadecimalString.NilZero.string_of_int (Z.to_hex_int n).

(** [s.repeat(count)]: a [RangeError] on a negative count, and one when
    the result would be longer than [maxLength], the longest string the
    engine makes (the messages are those of V8). *)
Fixpoint repeat_nat (s : string) (n : nat) : string :=
  match n with
  | O => EmptyString
  | S n' => s ++ repeat_nat s n'
  end.

Definition String_repeat (maxLength : N) (s : string) (count : Z)
  : completion string :=
  if count <? 0 then
    Throw (RangeError ("Invalid count value: " ++ decimal count))
  else if Z.of_N maxLength <? Z.of_nat (String.length s) * count then
    Throw (RangeError "Invalid string length")
  else Return (repeat_nat s (Z.to_nat count)).

(** [s.padStart(targetLength, padString)]. *)
Definition padStart (targetLength : nat) (padString s : string) : string :=
  let fill := (targetLength - String.length s)%nat in
  substring 0 fill (repeat_nat padString fill) ++ s.

(** [s.startsWith(prefix)]. *)
Definition startsWith (s prefix : string) : bool := String.prefix prefix s.

(** [array.join(sep)]. *)
Definition join (sep : string) (l : list string) : string :=
  String.concat sep l.

(** The UTF-8 bytes of a string, as [update(data, 'utf8')] and
    [TextEncoder.encode] give them (code units below 256). *)
Definition utf8 (s : string) : list Z :=
  flat_map (fun c =>
              let u := Z.of_N (N_of_ascii c) in
              if u <? 128 then [u] else [192 + u / 64; 128 + u mod 64])
           (list_ascii_of_string s).

Definition hexdigit (d : Z) : ascii :=
  nth (Z.to_nat d) (list_ascii_of_string "0123456789abcdef") "0"%char.

(** [buffer.toString('hex')], what [digest('hex')] returns. *)
Definition hex (bs : list Z) : string :=
  string_of_list_ascii
    (flat_map (fun b => [hexdigit (b / 16); hexdigit (b mod 16)]) bs).

(** ** The execution environment *)

(** [crypto]: [require('crypto')] gave Node's module (not [null]);
    [window_crypto_subtle]: [window.crypto.subtle] is there;
    [max_string_length]: the length of the longest string the engine
    makes, 2^29 - 24 in V8 on 64-bit platforms
    ([buffer.constants.MAX_STRING_LENGTH] of Node). *)
Record Env : Type := mkEnv {
  crypto : bool;
  window_crypto_subtle : bool;
  max_string_length : N
}.

Definition node : Env := mkEnv true false 536870888%N.
Definition browser : Env := mkEnv false true 536870888%N.

(** ** sha256.js *)

(** [crypto.createHash('sha256').update(data, 'utf8').digest('hex')]. *)
Definition createHash_sha256_hex (data : string) : string :=
  hex (SHA256.digest (utf8 data)).

Definition sha256 (env : Env) (data : string) : completion string :=
  if crypto env then
    Return (createHash_sha256_hex data)
  else if window_crypto_subtle env then
    Throw (Error "Use sha256Async for browser environments")
  else
    Throw (Error "No crypto implementation available").

Definition sha256Async (env : Env) (data : string) : completion string :=
  if window_crypto_subtle env then
    let dataBuffer := utf8 data in
    let hashBuffer := SHA256.digest dataBuffer in
    let hashArray := hashBuffer in
    Return (join EmptyString (map (fun b => padStart 2 "0" (toString16 b)) hashArray))
  else
    sha256 env data.

(** ** sha-infinity.js *)

Record Config : Type := mkConfig {
  defaultDepth : Z;
  maxDepth : Z;
  minDepth : Z;
  parallelThreshold : Z;
  cacheEnabled : bool;
  salt : string
}.

Definition DEFAULT_CONFIG : Config :=
  mkConfig 7 256 1 1000 true "blackroad-infinity".

(** The [options] argument: a field that is not given is [None], and the
    destructuring pattern of the functions puts its default there. *)
Record Options : Type := mkOptions {
  opt_useSalt : option bool;
  opt_salt : option string;
  opt_includeDepthInHash : option bool
}.

Definition no_options : Options := mkOptions None None None.

Definition or_default {A : Type} (o : option A) (d : A) : A :=
  match o with
  | Some a => a
  | None => d
  end.

Definition shaInfinity (env : Env) (data : string) (depth : Z)
  (options : Options) : completion string :=
  let useSalt := or_default (opt_useSalt options) true in
  let salt := or_default (opt_salt options) (salt DEFAULT_CONFIG) in
  let includeDepthInHash := or_default (opt_includeDepthInHash options) true in
  if depth <? minDepth DEFAULT_CONFIG then
    Throw (Error ("Depth must be at least " ++ decimal (minDepth DEFAULT_CONFIG)))
  else if depth >? maxDepth DEFAULT_CONFIG then
    Throw (Error ("Depth cannot exceed " ++ decimal (maxDepth DEFAULT_CONFIG)))
  else
    currentHash <- (if useSalt then sha256 env (salt ++ ":" ++ data)
                    else sha256 env data) ;;
    currentHash <- for_loop 1 depth 1
                     (fun _ currentHash => sha256 env currentHash)
                     currentHash ;;
    if includeDepthInHash then
      sha256 env (currentHash ++ ":depth:" ++ decimal depth)
    else
      Return currentHash.

Definition shaInfinityAsync (env : Env) (data : string) (depth : Z)
  (options : Options) : completion string :=
  let useSalt := or_default (opt_useSalt options) true in
  let salt := or_default (opt_salt options) (salt DEFAULT_CONFIG) in
  let includeDepthInHash := or_default (opt_includeDepthInHash options) true in
  if (depth <? minDepth DEFAULT_CONFIG) || (depth >? maxDepth DEFAULT_CONFIG) then
    Throw (Error ("Depth must be between " ++ decimal (minDepth DEFAULT_CONFIG)
                  ++ " and " ++ decimal (maxDepth DEFAULT_CONFIG)))
  else
    currentHash <- (if useSalt then sha256Async env (salt ++ ":" ++ data)
                    else sha256Async env data) ;;
    currentHash <- for_loop 1 depth 1
                     (fun _ currentHash => sha256Async env currentHash)
                     currentHash ;;
    if includeDepthInHash then
      sha256Async env (currentHash ++ ":depth:" ++ decimal depth)
    else
      Return currentHash.

(** [array[i]]: [None] is [undefined]. *)
Definition index {A : Type} (l : list A) (i : Z) : option A :=
  if i <? 0 then None else nth_error l (Z.to_nat i).

(** [a || b] where [a] is a string or [undefined] and [b] a string: the
    empty string and [undefined] are the falsy ones. *)
Definition or_else (a : option string) (b : string) : string :=
  match a with
  | Some EmptyString => b
  | Some s => s
  | None => b
  end.

(** The loop of [infinityMerkleRoot] that fills [paired].  [hashes[i]] is
    read below [hashes.length] only, so it is an element. *)
Definition pair_level (env : Env) (hashes : list string) (depth : Z)
  : completion (list string) :=
  for_loop 0 (Z.of_nat (List.length hashes)) 2
    (fun i paired =>
       let left := or_default (index hashes i) EmptyString in
       let right := or_else (index hashes (i + 1)) left in
       h <- shaInfinity env (left ++ right) depth
              (mkOptions None None (Some false)) ;;
       Return (paired ++ [h])%list)
    [].

(** The recursion is on a list that gets shorter, which [fuel] bounds:
    [None] is out of fuel, and [infinityMerkleRoot_total] shows that the
    fuel of [infinityMerkleRoot] is always enough. *)
Fixpoint infinityMerkleRoot_fuel (fuel : nat) (env : Env)
  (hashes : list string) (depth : Z) : option (completion string) :=
  match fuel with
  | O => None
  | S fuel' =>
      if (List.length hashes =? 0)%nat then
        Some (shaInfinity env "empty" depth no_options)
      else if (List.length hashes =? 1)%nat then
        Some (Return (or_default (index hashes 0) EmptyString))
      else
        match pair_level env hashes depth with
        | Throw e => Some (Throw e)
        | Return paired => infinityMerkleRoot_fuel fuel' env paired depth
        end
  end.

Definition infinityMerkleRoot (env : Env) (hashes : list string) (depth : Z)
  : option (completion string) :=
  infinityMerkleRoot_fuel (S (List.length hashes)) env hashes depth.

Record ProofOfWork : Type := mkProofOfWork {
  hash : string;
  nonce : Z;
  attempts : Z;
  verified : bool
}.

(** The [do ... while] of [proofOfWork]: [nonce] is the value before the
    attempt, the result is the last [hash] and the value of [nonce] after
    the loop.  [None] is out of fuel. *)
Fixpoint proofOfWork_loop (fuel : nat) (env : Env) (data : string)
  (depth : Z) (prefix : string) (nonce : Z)
  : option (completion (string * Z)) :=
  match fuel with
  | O => None
  | S fuel' =>
      match shaInfinity env (data ++ ":" ++ decimal nonce) depth
              (mkOptions None None (Some false)) with
      | Throw e => Some (Throw e)
      | Return hash =>
          let nonce := nonce + 1 in
          if negb (startsWith hash prefix) && (nonce <? 10000000) then
            proofOfWork_loop fuel' env data depth prefix nonce
          else
            Some (Return (hash, nonce))
      end
  end.

Definition proofOfWork_fuel (fuel : nat) (env : Env) (data : string)
  (difficulty depth : Z) : option (completion ProofOfWork) :=
  match String_repeat (max_string_length env) "0" difficulty with
  | Throw e => Some (Throw e)
  | Return prefix =>
      match proofOfWork_loop fuel env data depth prefix 0 with
      | None => None
      | Some (Throw e) => Some (Throw e)
      | Some (Return (hash, nonce)) =>
          Some (Return (mkProofOfWork hash (nonce - 1) nonce
                          (startsWith hash prefix)))
      end
  end.

Definition proofOfWork : Env -> string -> Z -> Z
                         -> option (completion ProofOfWork) :=
  proofOfWork_fuel (Z.to_nat 10000000).

(** ** The canonical serializer of sha256.js *)

(** The values [stableStringify] is meant for.  A number is an integer
    that [JSON.stringify] prints in plain decimal; an object lists its own
    enumerable properties in the order the object enumerates them (the
    order of [Object.keys]), each key once. *)
#[local] Unset Elimination Schemes.
Inductive json : Type :=
| JNull
| JBool (b : bool)
| JNumber (n : Z)
| JString (s : string)
| JArray (elements : list json)
| JObject (properties : list (string * json)).
#[local] Set Elimination Schemes.

Definition dquote : ascii := "034"%char.
Definition backslash : ascii := "092"%char.

(** One code unit inside a JSON string literal. *)
Definition quote_char (c : ascii) : string :=
  let u := Z.of_N (N_of_ascii c) in
  if u =? 8 then String backslash "b"
  else if u =? 9 then String backslash "t"
  else if u =? 10 then String backslash "n"
  else if u =? 12 then String backslash "f"
  else if u =? 13 then String backslash "r"
  else if u =? 34 then String backslash (String dquote EmptyString)
  else if u =? 92 then String backslash (String backslash EmptyString)
  else if u <? 32 then String backslash ("u" ++ padStart 4 "0" (toString16 u))
  else String c EmptyString.

(** [JSON.stringify] on a string. *)
Definition JSON_stringify_string (s : string) : string :=
  String dquote
    (String.concat EmptyString (map quote_char (list_ascii_of_string s))
       ++ String dquote EmptyString).

(** [array.sort()] on strings: ascending by code units. *)
Fixpoint sort_insert (x : string) (l : list string) : list string :=
  match l with
  | [] => [x]
  | y :: l' => if String.leb x y then x :: l else y :: sort_insert x l'
  end.

Definition sort (l : list string) : list string :=
  fold_right sort_insert [] l.

(** [Object.keys(obj)] and [obj[key]]. *)
Definition Object_keys {A : Type} (obj : list (string * A)) : list string :=
  map fst obj.

Fixpoint get {A : Type} (obj : list (string * A)) (key : string) : option A :=
  match obj with
  | [] => None
  | (k, v) :: obj' => if String.eqb k key then Some v else get obj' key
  end.

(** The recursive calls [stableStringify(obj[key])] are made on the
    properties in place ([rendered]) and looked up by key afterwards;
    [stableStringify_object] gives the equation in the shape of the
    source, with [obj[key]] read from the object. *)
Fixpoint stableStringify (obj : json) : string :=
  match obj with
  | JNull => "null"
  | JBool b => if b then "true" else "false"
  | JNumber n => decimal n
  | JString s => JSON_stringify_string s
  | JArray elements =>
      "[" ++ join "," (map stableStringify elements) ++ "]"
  | JObject properties =>
      let rendered :=
        map (fun kv => let '(k, v) := kv in (k, stableStringify v)) properties in
      let keys := sort (Object_keys properties) in
      let pairs :=
        map (fun key =>
               let value := or_default (get rendered key) "undefined" in
               JSON_stringify_string key ++ ":" ++ value)
            keys in
      "{" ++ join "," pairs ++ "}"
  end.

(** ** The state integrity record of sha-infinity.js *)

Record IntegrityRecord : Type := mkIntegrityRecord {
  rec_sha256 : string;
  rec_sha_infinity : string;
  chain_depth : Z;
  timestamp : Z;
  version : string;
  algorithm : string
}.

Record Verification : Type := mkVerification {
  valid : bool;
  sha256_valid : bool;
  sha_infinity_valid : bool;
  checked_at : Z;
  original_timestamp : Z
}.

(** [now] is what [Date.now()] returns in the call. *)
Definition createStateIntegrity (env : Env) (now : Z) (state : json)
  (depth : Z) : completion IntegrityRecord :=
  let timestamp := now in
  let stateJson := stableStringify state in
  h <- sha256 env stateJson ;;
  hi <- shaInfinity env stateJson depth no_options ;;
  Return (mkIntegrityRecord h hi depth timestamp "1.0.0" "sha-infinity-v1").

Definition verifyStateIntegrity (env : Env) (now : Z) (state : json)
  (integrity : IntegrityRecord) : completion Verification :=
  let stateJson := stableStringify state in
  h <- sha256 env stateJson ;;
  let sha256Valid := String.eqb h (rec_sha256 integrity) in
  hi <- shaInfinity env stateJson (chain_depth integrity) no_options ;;
  let infinityValid := String.eqb hi (rec_sha_infinity integrity) in
  Return (mkVerification (sha256Valid && infinityValid) sha256Valid
            infinityValid now (timestamp integrity)).

(** ** Definitions the statements use *)

(** The depth errors of [shaInfinity]. *)
Definition InvalidDepthError (e : exn) : Prop :=
  e = Error "Depth must be at least 1" \/ e = Error "Depth cannot exceed 256".

(** [n] applications of the base digest, the first one to [data] and each
    later one to the hexadecimal string before it. *)
Definition sequential_digests (n : nat) (data : string) : string :=
  Nat.iter n createHash_sha256_hex data.

(** Consecutive elements two by two, the last one with itself when it has
    no partner. *)
Fixpoint pairs (hashes : list string) : list (string * string) :=
  match hashes with
  | [] => []
  | [h] => [(h, h)]
  | l :: r :: rest => (l, r) :: pairs rest
  end.

Fixpoint mapM {A B : Type} (f : A -> completion B) (l : list A)
  : completion (list B) :=
  match l with
  | [] => Return []
  | a :: l' => b <- f a ;; bs <- mapM f l' ;; Return (b :: bs)
  end.

(** One level of the tree as the text describes it: every pair
    [(left, right)] goes through the chained hash of [left ++ right]
    without the depth binding. *)
Definition combine_pairs (env : Env) (hashes : list string) (depth : Z)
  : completion (list string) :=
  mapM (fun lr => shaInfinity env (fst lr ++ snd lr) depth
                    (mkOptions None None (Some false)))
       (pairs hashes).

(** What the loop of [infinityMerkleRoot] does with the pair
    [(left, hashes[i + 1])]. *)
Definition combine_pair (env : Env) (depth : Z) (lr : string * string)
  : completion string :=
  shaInfinity env (fst lr ++ or_else (Some (snd lr)) (fst lr)) depth
    (mkOptions None None (Some false)).

(** Every empty string at a right-hand position replaced by the element
    on its left. *)
Fixpoint fill_right (hashes : list string) : list string :=
  match hashes with
  | l :: r :: rest => l :: or_else (Some r) l :: fill_right rest
  | _ => hashes
  end.

(** The number of ['0'] characters a string starts with. *)
Fixpoint leading_zeros (s : string) : nat :=
  match s with
  | String c s' => if Ascii.eqb c "0"%char then S (leading_zeros s') else O
  | EmptyString => O
  end.

(** The [n]-th attempt of the proof-of-work search. *)
Definition attempt (env : Env) (data : string) (depth n : Z)
  : completion string :=
  shaInfinity env (data ++ ":" ++ decimal n) depth
    (mkOptions None None (Some false)).

(** The properties of an object with their values serialized. *)
Definition render_properties (properties : list (string * json))
  : list (string * string) :=
  map (fun kv => let '(k, v) := kv in (k, stableStringify v)) properties.

(** Does the hexadecimal rendering of the browser path agree with the one
    of [digest('hex')] on the byte [n]? *)
Definition byte_hex_agree (n : nat) : bool :=
  String.eqb (padStart 2 "0" (toString16 (Z.of_nat n)))
    (String (hexdigit (Z.of_nat n / 16))
       (String (hexdigit (Z.of_nat n mod 16)) EmptyString)).

(** What [shaInfinity] returns where it returns: the seed digest,
    [depth - 1] further digests, and the depth binding. *)
Definition chained (data : string) (depth : Z) (options : Options) : string :=
  let seed :=
    if or_default (opt_useSalt options) true then
      createHash_sha256_hex
        (or_default (opt_salt options) (salt DEFAULT_CONFIG) ++ ":" ++ data)
    else createHash_sha256_hex data in
  let h := Nat.iter (Z.to_nat (depth - 1)) createHash_sha256_hex seed in
  if or_default (opt_includeDepthInHash options) true then
    createHash_sha256_hex (h ++ ":depth:" ++ decimal depth)
  else h.

(** Two values with the same content: objects may list their properties
    in a different order, at any depth; arrays keep theirs. *)
#[local] Unset Elimination Schemes.
Inductive same_content : json -> json -> Prop :=
| sc_refl (v : json) : same_content v v
| sc_array (l1 l2 : list json) :
    Forall2 same_content l1 l2 ->
    same_content (JArray l1) (JArray l2)
| sc_object (p1 p p2 : list (string * json)) :
    NoDup (Object_keys p1) ->
    Permutation p1 p ->
    Forall2 (fun a b => fst a = fst b /\ same_content (snd a) (snd b)) p p2 ->
    same_content (JObject p1) (JObject p2).
#[local] Set Elimination Schemes.

Definition set_algorithm (a : string) (r : IntegrityRecord) : IntegrityRecord :=
  mkIntegrityRecord (rec_sha256 r) (rec_sha_infinity r) (chain_depth r)
    (timestamp r) (version r) a.

Definition set_version (v : string) (r : IntegrityRecord) : IntegrityRecord :=
  mkIntegrityRecord (rec_sha256 r) (rec_sha_infinity r) (chain_depth r)
    (timestamp r) v (algorithm r).

(** ** The other functions of sha256.js *)

(** [JSON.stringify] on the values of [json]: the properties of an object
    in the order the object enumerates them, which is the order of the
    list. *)
Fixpoint JSON_stringify (obj : json) : string :=
  match obj with
  | JNull => "null"
  | JBool b => if b then "true" else "false"
  | JNumber n => decimal n
  | JString s => JSON_stringify_string s
  | JArray elements => "[" ++ join "," (map JSON_stringify elements) ++ "]"
  | JObject properties =>
      "{" ++ join ","
               (map (fun kv =>
                       let '(k, v) := kv in
                       JSON_stringify_string k ++ ":" ++ JSON_stringify v)
                    properties)
          ++ "}"
  end.

Definition hashObject (env : Env) (obj : json) (sortKeys : bool)
  : completion string :=
  let data := if sortKeys then stableStringify obj else JSON_stringify obj in
  sha256 env data.

Definition hashObjectAsync (env : Env) (obj : json) (sortKeys : bool)
  : completion string :=
  let data := if sortKeys then stableStringify obj else JSON_stringify obj in
  sha256Async env data.

(** [s.toLowerCase()] on code units below 256: the letters A to Z and the
    capital letters of Latin-1 move up by 32. *)
Definition toLowerCase_unit (c : ascii) : ascii :=
  let u := Z.of_N (N_of_ascii c) in
  if ((65 <=? u) && (u <=? 90))
     || ((192 <=? u) && (u <=? 222) && negb (u =? 215))
  then ascii_of_N (Z.to_N (u + 32))
  else c.

Fixpoint toLowerCase (s : string) : string :=
  match s with
  | EmptyString => EmptyString
  | String c s' => String (toLowerCase_unit c) (toLowerCase s')
  end.

Definition verifyHash (env : Env) (data expectedHash : string)
  : completion bool :=
  actualHash <- sha256 env data ;;
  Return (String.eqb actualHash (toLowerCase expectedHash)).

Definition verifyHashAsync (env : Env) (data expectedHash : string)
  : completion bool :=
  actualHash <- sha256Async env data ;;
  Return (String.eqb actualHash (toLowerCase expectedHash)).

Definition chainHash (env : Env) (previousHash data : string)
  : completion string :=
  sha256 env (previousHash ++ data).

(** [now] is what [Date.now()] returns in the call. *)
Definition generateHashId (env : Env) (now : Z) (components : list string)
  : completion string :=
  let data := join ":" components ++ ":" ++ decimal now in
  h <- sha256 env data ;;
  Return (substring 0 12 h).

Definition contentKey (env : Env) (content : json) : completion string :=
  h <- hashObject env content true ;;
  Return ("sha256:" ++ h).

(** ** The other functions of sha-infinity.js *)

Definition hashObjectInfinity (env : Env) (obj : json) (depth : Z)
  (options : Options) : completion string :=
  let jsonData := stableStringify obj in
  shaInfinity env jsonData depth options.

Definition verifyInfinityHash (env : Env) (data expectedHash : string)
  (depth : Z) (options : Options) : completion bool :=
  actualHash <- shaInfinity env data depth options ;;
  Return (String.eqb actualHash (toLowerCase expectedHash)).

Definition verifyInfinityHashAsync (env : Env) (data expectedHash : string)
  (depth : Z) (options : Options) : completion bool :=
  actualHash <- shaInfinityAsync env data depth options ;;
  Return (String.eqb actualHash (toLowerCase expectedHash)).

Definition infinityChain (env : Env) (now : Z) (previousHash data : string)
  (depth : Z) : completion string :=
  let combined := previousHash ++ ":" ++ data ++ ":" ++ decimal now in
  shaInfinity env combined depth no_options.

Record TimedHash : Type := mkTimedHash {
  th_hash : string;
  th_timestamp : Z
}.

Definition timedHash (env : Env) (data : string) (depth timestamp : Z)
  : completion TimedHash :=
  hash <- shaInfinity env (data ++ ":timestamp:" ++ decimal timestamp) depth
            no_options ;;
  Return (mkTimedHash hash timestamp).

(** [random] is the text of the number [Math.random()] returns in the
    call, as the concatenation writes it. *)
Definition generateInfinityId (env : Env) (now : Z) (random : string)
  (components : list string) : completion string :=
  let data := join ":" components ++ ":" ++ decimal now ++ ":" ++ random in
  h <- shaInfinity env data 3 (mkOptions None None (Some false)) ;;
  Return (substring 0 16 h).

(** ** The hashes of scripts/sync-state.sh *)

(** What [$(node -e "... console.log(x)" 2>/dev/null || echo "error")]
    leaves in the variable. *)
Definition printed_or_error (c : completion string) : string :=
  match c with
  | Return s => s
  | Throw _ => "error"
  end.

(** [SHA256] and [SHA_INFINITY] of [compute_hash] where [node] is there;
    [state] is what [require] reads from the state file. *)
Definition compute_hash_SHA256 (env : Env) (state : json) : string :=
  printed_or_error (hashObject env state true).

Definition compute_hash_SHA_INFINITY (env : Env) (state : json) : string :=
  printed_or_error (shaInfinity env (JSON_stringify state) 7 no_options).

(** ** More definitions the statements use *)

Fixpoint all_chars (p : ascii -> bool) (s : string) : bool :=
  match s with
  | EmptyString => true
  | String c s' => p c && all_chars p s'
  end.

Definition is_lower_hex (c : ascii) : bool :=
  existsb (Ascii.eqb c) (list_ascii_of_string "0123456789abcdef").

(** Sixty-four lowercase hexadecimal characters. *)
Definition is_digest (h : string) : bool :=
  (String.length h =? 64)%nat && all_chars is_lower_hex h.

(** Strictly ascending keys. *)
Fixpoint ascending (l : list string) : bool :=
  match l with
  | a :: (b :: _) as l' => String.ltb a b && ascending l'
  | _ => true
  end.

(** Every object of the value, at any depth, lists its properties by
    ascending key. *)
Fixpoint sorted_keys (v : json) : bool :=
  match v with
  | JArray elements => forallb sorted_keys elements
  | JObject properties =>
      ascending (Object_keys properties)
      && forallb (fun kv => let '(_, x) := kv in sorted_keys x) properties
  | _ => true
  end.

Definition lowercase_fixed (n : nat) : bool :=
  let c := ascii_of_nat n in
  negb (is_lower_hex c) || Ascii.eqb (toLowerCase_unit c) c.

(** * Properties *)

(** ** The digest *)

Lemma be_bytes_range (n : nat) (x : Z) :
  Forall (fun b => 0 <= b < 256) (SHA256.be_bytes n x).
Proof.
  unfold SHA256.be_bytes. apply Forall_forall. intros b Hb.
  apply in_map_iff in Hb. destruct Hb as [i [<- _]].
  change 255 with (Z.ones 8). rewrite Z.land_ones by lia.
  apply Z.mod_pos_bound. reflexivity.
Qed.

Lemma digest_range (msg : list Z) :
  Forall (fun b => 0 <= b < 256) (SHA256.digest msg).
Proof.
  unfold SHA256.digest, SHA256.state_bytes.
  repeat (apply Forall_app; split); apply be_bytes_range.
Qed.

Lemma digest_length (msg : list Z) : List.length (SHA256.digest msg) = 32%nat.
Proof.
  unfold SHA256.digest, SHA256.state_bytes, SHA256.be_bytes.
  repeat rewrite length_app. repeat rewrite length_map. reflexivity.
Qed.

Lemma hex_length (bs : list Z) :
  String.length (hex bs) = (2 * List.length bs)%nat.
Proof.
  unfold hex. induction bs as [|b bs IH]; [reflexivity|].
  cbn [flat_map app string_of_list_ascii String.length List.length].
  rewrite IH. lia.
Qed.

Lemma createHash_sha256_hex_length (data : string) :
  String.length (createHash_sha256_hex data) = 64%nat.
Proof.
  unfold createHash_sha256_hex. rewrite hex_length, digest_length. reflexivity.
Qed.

Lemma createHash_sha256_hex_nonempty (data : string) :
  createHash_sha256_hex data <> EmptyString.
Proof.
  intros H. pose proof (createHash_sha256_hex_length data) as L.
  rewrite H in L. discriminate L.
Qed.

Lemma byte_hex_agree_all : forallb byte_hex_agree (seq 0 256) = true.
Proof. vm_compute. reflexivity. Qed.

Lemma byte_hex (b : Z) :
  0 <= b < 256 ->
  padStart 2 "0" (toString16 b)
  = String (hexdigit (b / 16)) (String (hexdigit (b mod 16)) EmptyString).
Proof.
  intros Hb. pose proof byte_hex_agree_all as H.
  rewrite forallb_forall in H.
  specialize (H (Z.to_nat b)).
  unfold byte_hex_agree in H. rewrite Z2Nat.id in H by lia.
  apply String.eqb_eq. apply H. apply in_seq. lia.
Qed.

Lemma browser_hex (bs : list Z) :
  Forall (fun b => 0 <= b < 256) bs ->
  join EmptyString (map (fun b => padStart 2 "0" (toString16 b)) bs) = hex bs.
Proof.
  unfold hex, join. induction 1 as [|b bs Hb _ IH]; [reflexivity|].
  cbn [map flat_map app string_of_list_ascii].
  rewrite <- IH, (byte_hex b Hb). destruct bs; reflexivity.
Qed.

(** ** The primitives in the two execution modes *)

Lemma sha256_node (env : Env) (data : string) :
  crypto env = true -> sha256 env data = Return (createHash_sha256_hex data).
Proof. intros H. unfold sha256. rewrite H. reflexivity. Qed.

Lemma sha256Async_available (env : Env) (data : string) :
  crypto env = true \/ window_crypto_subtle env = true ->
  sha256Async env data = Return (createHash_sha256_hex data).
Proof.
  intros H. unfold sha256Async.
  destruct (window_crypto_subtle env) eqn:W.
  - cbv zeta. rewrite browser_hex by apply digest_range. reflexivity.
  - destruct H as [H|H]; [apply sha256_node; exact H | discriminate H].
Qed.

(** ** Loops *)

Lemma for_iter_ext {S : Type} (n : nat) (i step : Z)
  (body1 body2 : Z -> S -> completion S) (s : S) :
  (forall j x, body1 j x = body2 j x) ->
  for_iter n i step body1 s = for_iter n i step body2 s.
Proof.
  intros E. revert i s. induction n as [|n IH]; intros i s; [reflexivity|].
  cbn [for_iter]. rewrite E. destruct (body2 i s); cbn [bind]; auto.
Qed.

Lemma for_iter_pure {S : Type} (n : nat) (i step : Z) (g : S -> S) (s : S) :
  for_iter n i step (fun _ x => Return (g x)) s = Return (Nat.iter n g s).
Proof.
  revert i s. induction n as [|n IH]; intros i s; [reflexivity|].
  cbn [for_iter bind]. rewrite IH, Nat.iter_succ_r. reflexivity.
Qed.

Lemma for_iter_throw {S : Type} (n : nat) (i step : Z) (e : exn) (s : S) :
  n <> O ->
  for_iter n i step (fun _ _ => Throw e) s = Throw e.
Proof. destruct n; [congruence | reflexivity]. Qed.

(** ** The chained hash *)

Lemma depth_tests (depth : Z) :
  1 <= depth <= 256 ->
  (depth <? minDepth DEFAULT_CONFIG) = false
  /\ (depth >? maxDepth DEFAULT_CONFIG) = false.
Proof.
  intros H. cbn [minDepth maxDepth DEFAULT_CONFIG]. split.
  - apply Z.ltb_ge. lia.
  - rewrite Z.gtb_ltb. apply Z.ltb_ge. lia.
Qed.

Lemma shaInfinity_chained (env : Env) (data : string) (depth : Z)
  (options : Options) :
  crypto env = true -> 1 <= depth <= 256 ->
  shaInfinity env data depth options = Return (chained data depth options).
Proof.
  intros C H. destruct (depth_tests depth H) as [Hlo Hhi].
  unfold shaInfinity, chained. cbv zeta. rewrite Hlo, Hhi.
  assert (L : forall s,
             for_loop 1 depth 1 (fun _ x => sha256 env x) s
             = Return (Nat.iter (Z.to_nat (depth - 1)) createHash_sha256_hex s)).
  { intros s. unfold for_loop.
    replace ((depth - 1 + 1 - 1) / 1) with (depth - 1) by (rewrite Z.div_1_r; lia).
    rewrite (for_iter_ext _ _ _ _ (fun _ x => Return (createHash_sha256_hex x)))
      by (intros; apply sha256_node; exact C).
    apply for_iter_pure. }
  destruct (or_default (opt_useSalt options) true);
    rewrite (sha256_node env _ C); cbn [bind]; rewrite L; cbn [bind];
    destruct (or_default (opt_includeDepthInHash options) true);
    try rewrite (sha256_node env _ C); reflexivity.
Qed.

Lemma shaInfinityAsync_chained (env : Env) (data : string) (depth : Z)
  (options : Options) :
  crypto env = true \/ window_crypto_subtle env = true -> 1 <= depth <= 256 ->
  shaInfinityAsync env data depth options = Return (chained data depth options).
Proof.
  intros C H. destruct (depth_tests depth H) as [Hlo Hhi].
  unfold shaInfinityAsync, chained. cbv zeta. rewrite Hlo, Hhi. cbn [orb].
  assert (L : forall s,
             for_loop 1 depth 1 (fun _ x => sha256Async env x) s
             = Return (Nat.iter (Z.to_nat (depth - 1)) createHash_sha256_hex s)).
  { intros s. unfold for_loop.
    replace ((depth - 1 + 1 - 1) / 1) with (depth - 1) by (rewrite Z.div_1_r; lia).
    rewrite (for_iter_ext _ _ _ _ (fun _ x => Return (createHash_sha256_hex x)))
      by (intros; apply sha256Async_available; exact C).
    apply for_iter_pure. }
  destruct (or_default (opt_useSalt options) true);
    rewrite (sha256Async_available env _ C); cbn [bind]; rewrite L; cbn [bind];
    destruct (or_default (opt_includeDepthInHash options) true);
    try rewrite (sha256Async_available env _ C); reflexivity.
Qed.

Lemma shaInfinity_too_low (env : Env) (data : string) (depth : Z)
  (options : Options) :
  depth < 1 ->
  shaInfinity env data depth options = Throw (Error "Depth must be at least 1").
Proof.
  intros H. unfold shaInfinity. cbv zeta.
  replace (depth <? minDepth DEFAULT_CONFIG) with true
    by (symmetry; apply Z.ltb_lt; exact H).
  reflexivity.
Qed.

Lemma shaInfinity_too_high (env : Env) (data : string) (depth : Z)
  (options : Options) :
  256 < depth ->
  shaInfinity env data depth options = Throw (Error "Depth cannot exceed 256").
Proof.
  intros H. unfold shaInfinity. cbv zeta.
  replace (depth <? minDepth DEFAULT_CONFIG) with false
    by (symmetry; apply Z.ltb_ge; cbn; lia).
  replace (depth >? maxDepth DEFAULT_CONFIG) with true
    by (symmetry; rewrite Z.gtb_ltb; apply Z.ltb_lt; exact H).
  reflexivity.
Qed.

Lemma chained_length (data : string) (depth : Z) (options : Options) :
  String.length (chained data depth options) = 64%nat.
Proof.
  unfold chained. cbv zeta.
  destruct (or_default (opt_includeDepthInHash options) true);
    [apply createHash_sha256_hex_length|].
  destruct (Z.to_nat (depth - 1)) as [|n].
  - cbn [Nat.iter nat_rect].
    destruct (or_default (opt_useSalt options) true);
      apply createHash_sha256_hex_length.
  - cbn [Nat.iter nat_rect]. apply createHash_sha256_hex_length.
Qed.

Lemma iter_shift (n : nat) (data : string) :
  Nat.iter n createHash_sha256_hex (createHash_sha256_hex data)
  = sequential_digests (S n) data.
Proof.
  unfold sequential_digests. rewrite <- Nat.iter_succ_r. reflexivity.
Qed.

(** C2: without salt and without depth binding, the chained hash at a
    depth [d] in [1, 256] is [d] applications of the base digest in a row,
    the first to [data] and each later one to the hexadecimal string the
    one before returned; at depth 1 it is the base digest of [data]. *)
Theorem shaInfinity_sequential_digests (env : Env) (data : string) (d : Z)
  (salt : option string) :
  crypto env = true -> 1 <= d <= 256 ->
  shaInfinity env data d (mkOptions (Some false) salt (Some false))
  = Return (sequential_digests (Z.to_nat d) data)
  /\ sequential_digests (Z.to_nat d) data
     = createHash_sha256_hex (sequential_digests (Z.to_nat d - 1) data)
  /\ sequential_digests 0 data = data
  /\ (d = 1 ->
      shaInfinity env data d (mkOptions (Some false) salt (Some false))
      = sha256 env data).
Proof.
  intros C H.
  assert (E : Z.to_nat d = S (Z.to_nat (d - 1))) by lia.
  assert (R : shaInfinity env data d (mkOptions (Some false) salt (Some false))
              = Return (sequential_digests (Z.to_nat d) data)).
  { rewrite (shaInfinity_chained env data d _ C H).
    unfold chained. cbn [or_default opt_useSalt opt_includeDepthInHash].
    cbv zeta. rewrite iter_shift, <- E. reflexivity. }
  repeat split.
  - exact R.
  - rewrite E. replace (S (Z.to_nat (d - 1)) - 1)%nat with (Z.to_nat (d - 1)) by lia.
    reflexivity.
  - intros ->. rewrite R, (sha256_node env data C). reflexivity.
Qed.

Lemma shaInfinity_sequential_digests_witness :
  crypto node = true /\ 1 <= 3 <= 256
  /\ shaInfinity node "hello" 3 (mkOptions (Some false) None (Some false))
     = Return (createHash_sha256_hex
                 (createHash_sha256_hex (createHash_sha256_hex "hello"))).
Proof.
  split; [reflexivity|]. split; [lia|].
  apply (shaInfinity_sequential_digests node "hello" 3 None); [reflexivity | lia].
Defined.

(** C3: a depth below 1 or above 256 makes the chained hash throw its
    depth error, in every environment, also one where any digest call
    would throw an error of its own: the check comes before all digesting.
    Depths 1 and 256 return a digest, and where the digest primitive is
    there the call throws exactly when the depth is outside [1, 256]. *)
Theorem shaInfinity_depth_bounds (env : Env) (data : string)
  (options : Options) :
  shaInfinity env data 0 options = Throw (Error "Depth must be at least 1")
  /\ shaInfinity env data 257 options = Throw (Error "Depth cannot exceed 256")
  /\ (forall depth, depth < 1 \/ 256 < depth ->
        exists e, shaInfinity env data depth options = Throw e
                  /\ InvalidDepthError e)
  /\ (crypto env = true ->
      (exists digest, shaInfinity env data 1 options = Return digest)
      /\ (exists digest, shaInfinity env data 256 options = Return digest)
      /\ (forall depth,
            (exists e, shaInfinity env data depth options = Throw e)
            <-> (depth < 1 \/ 256 < depth))).
Proof.
  split; [apply shaInfinity_too_low; lia|].
  split; [apply shaInfinity_too_high; lia|].
  split.
  - intros depth [H|H].
    + eexists. split; [apply shaInfinity_too_low; exact H | left; reflexivity].
    + eexists. split; [apply shaInfinity_too_high; exact H | right; reflexivity].
  - intros C. split; [|split].
    + eexists. apply shaInfinity_chained; [exact C | lia].
    + eexists. apply shaInfinity_chained; [exact C | lia].
    + intros depth. split.
      * intros [e He].
        destruct (Z_lt_dec depth 1) as [Hlo|Hlo]; [left; exact Hlo|].
        destruct (Z_lt_dec 256 depth) as [Hhi|Hhi]; [right; exact Hhi|].
        rewrite shaInfinity_chained in He by (try exact C; lia).
        discriminate He.
      * intros [H|H]; eexists;
          [apply shaInfinity_too_low | apply shaInfinity_too_high]; exact H.
Qed.

Lemma shaInfinity_depth_bounds_witness :
  crypto node = true
  /\ shaInfinity browser "hello" 0 no_options
     = Throw (Error "Depth must be at least 1")
  /\ (exists digest, shaInfinity node "hello" 256 no_options = Return digest).
Proof.
  split; [reflexivity|]. split.
  - apply (shaInfinity_depth_bounds browser "hello" no_options).
  - apply (shaInfinity_depth_bounds node "hello" no_options). reflexivity.
Defined.

(** C9: at a depth in [1, 256] the synchronous chained hash, run where
    Node's [crypto] is there, and the asynchronous one, run where Node's
    [crypto] or the browser's [crypto.subtle] is there, return the same
    digest string. *)
Theorem shaInfinityAsync_same_digest (sync_env async_env : Env)
  (data : string) (depth : Z) (options : Options) :
  crypto sync_env = true ->
  crypto async_env = true \/ window_crypto_subtle async_env = true ->
  1 <= depth <= 256 ->
  exists digest,
    shaInfinity sync_env data depth options = Return digest
    /\ shaInfinityAsync async_env data depth options = Return digest.
Proof.
  intros Cs Ca H. exists (chained data depth options). split.
  - apply shaInfinity_chained; assumption.
  - apply shaInfinityAsync_chained; assumption.
Qed.

Lemma shaInfinityAsync_same_digest_witness :
  crypto node = true
  /\ (crypto browser = true \/ window_crypto_subtle browser = true)
  /\ 1 <= 7 <= 256
  /\ exists digest,
       shaInfinity node "hello" 7 no_options = Return digest
       /\ shaInfinityAsync browser "hello" 7 no_options = Return digest.
Proof.
  split; [reflexivity|]. split; [right; reflexivity|]. split; [lia|].
  apply (shaInfinityAsync_same_digest node browser "hello" 7 no_options);
    [reflexivity | right; reflexivity | lia].
Defined.

(** Where only the browser's [crypto.subtle] is there, the synchronous
    function has no digest to return: its first digest call throws. *)
Lemma shaInfinity_browser_only (env : Env) (data : string) (depth : Z)
  (options : Options) :
  crypto env = false -> window_crypto_subtle env = true ->
  1 <= depth <= 256 ->
  shaInfinity env data depth options
  = Throw (Error "Use sha256Async for browser environments").
Proof.
  intros C W H. destruct (depth_tests depth H) as [Hlo Hhi].
  unfold shaInfinity. cbv zeta. rewrite Hlo, Hhi.
  unfold sha256 at 1 2. rewrite C, W.
  destruct (or_default (opt_useSalt options) true); reflexivity.
Qed.

(** ** The state integrity record *)

Lemma verifyStateIntegrity_node (env : Env) (now : Z) (state : json)
  (integrity : IntegrityRecord) :
  crypto env = true -> 1 <= chain_depth integrity <= 256 ->
  verifyStateIntegrity env now state integrity
  = Return
      (let sha256Valid :=
         String.eqb (createHash_sha256_hex (stableStringify state))
           (rec_sha256 integrity) in
       let infinityValid :=
         String.eqb
           (chained (stableStringify state) (chain_depth integrity) no_options)
           (rec_sha_infinity integrity) in
       mkVerification (sha256Valid && infinityValid) sha256Valid infinityValid
         now (timestamp integrity)).
Proof.
  intros C H. unfold verifyStateIntegrity. cbv zeta.
  rewrite (sha256_node env _ C). cbn [bind].
  rewrite (shaInfinity_chained env _ _ _ C H). reflexivity.
Qed.

(** C1: a record created from a state at a depth [d] in [1, 256] verifies
    against that state: [valid], [sha256_valid] and [sha_infinity_valid]
    are all true.  The verification takes no depth of its own: for any
    record with a [chain_depth] in [1, 256] it recomputes the plain digest
    of the canonical serialization of the state and the chained digest of
    it at the [chain_depth] of the record, [sha256_valid] and
    [sha_infinity_valid] say whether these are the two digests of the
    record, and [valid] is their conjunction. *)
Theorem verify_create_round_trip (env : Env) (now now' : Z) (state : json)
  (d : Z) :
  crypto env = true -> 1 <= d <= 256 ->
  (exists record result,
     createStateIntegrity env now state d = Return record
     /\ chain_depth record = d
     /\ rec_sha256 record = createHash_sha256_hex (stableStringify state)
     /\ rec_sha_infinity record = chained (stableStringify state) d no_options
     /\ verifyStateIntegrity env now' state record = Return result
     /\ valid result = true
     /\ sha256_valid result = true
     /\ sha_infinity_valid result = true)
  /\ (forall integrity,
        1 <= chain_depth integrity <= 256 ->
        exists plain chained_digest,
          sha256 env (stableStringify state) = Return plain
          /\ shaInfinity env (stableStringify state) (chain_depth integrity)
               no_options = Return chained_digest
          /\ verifyStateIntegrity env now' state integrity
             = Return
                 (mkVerification
                    (String.eqb plain (rec_sha256 integrity)
                     && String.eqb chained_digest (rec_sha_infinity integrity))
                    (String.eqb plain (rec_sha256 integrity))
                    (String.eqb chained_digest (rec_sha_infinity integrity))
                    now' (timestamp integrity))).
Proof.
  intros C H. split.
  - exists (mkIntegrityRecord (createHash_sha256_hex (stableStringify state))
              (chained (stableStringify state) d no_options) d now
              "1.0.0" "sha-infinity-v1").
    eexists. split.
    { unfold createStateIntegrity. cbv zeta.
      rewrite (sha256_node env _ C). cbn [bind].
      rewrite (shaInfinity_chained env _ _ _ C H). reflexivity. }
    do 3 (split; [reflexivity|]).
    split.
    { apply verifyStateIntegrity_node; [exact C | exact H]. }
    cbn [rec_sha256 rec_sha_infinity chain_depth valid sha256_valid
         sha_infinity_valid].
    rewrite !String.eqb_refl. repeat split.
  - intros integrity Hd.
    exists (createHash_sha256_hex (stableStringify state)).
    exists (chained (stableStringify state) (chain_depth integrity) no_options).
    split; [apply sha256_node; exact C|].
    split; [apply shaInfinity_chained; [exact C | exact Hd]|].
    apply verifyStateIntegrity_node; [exact C | exact Hd].
Qed.

Lemma verify_create_round_trip_witness :
  crypto node = true /\ 1 <= 3 <= 256
  /\ exists record result,
       createStateIntegrity node 5
         (JObject [("b", JNumber 2); ("a", JNumber 1)]) 3 = Return record
       /\ chain_depth record = 3
       /\ verifyStateIntegrity node 9
            (JObject [("b", JNumber 2); ("a", JNumber 1)]) record
          = Return result
       /\ valid result = true.
Proof.
  assert (H : 1 <= 3 <= 256) by lia.
  split; [reflexivity|]. split; [exact H|].
  destruct (proj1 (verify_create_round_trip node 5 9
                     (JObject [("b", JNumber 2); ("a", JNumber 1)]) 3
                     eq_refl H))
    as [record [result [H1 [H2 [_ [_ [H3 [H4 _]]]]]]]].
  exists record, result. repeat split; assumption.
Defined.

(** C8, as the code has it: the verification reads neither the
    [algorithm] nor the [version] field, so a record verifies the same
    whatever identifier and whatever version it carries. *)
Theorem verifyStateIntegrity_ignores_algorithm (env : Env) (now : Z)
  (state : json) (integrity : IntegrityRecord) (v a : string) :
  verifyStateIntegrity env now state (set_version v (set_algorithm a integrity))
  = verifyStateIntegrity env now state integrity
  /\ verifyStateIntegrity env now state (set_algorithm a integrity)
     = verifyStateIntegrity env now state integrity
  /\ verifyStateIntegrity env now state (set_version v integrity)
     = verifyStateIntegrity env now state integrity.
Proof. repeat split. Qed.

(** C8 fails as stated: a record with an unknown algorithm identifier and
    the right digests is verified as valid, with the same result a current
    record gets. *)
Lemma verifyStateIntegrity_unknown_algorithm_valid :
  algorithm
    (mkIntegrityRecord
       "43258cff783fe7036d8a43033f830adfc60ec037382473548ac742b888292777"
       "3e43cbe40f7f28a1b2ed93f7d8288e34c19cbc1c6086457ede278dd0bb9b27df"
       3 5 "1.0.0" "md5-legacy")
  <> "sha-infinity-v1"
  /\ verifyStateIntegrity node 9
       (JObject [("a", JNumber 1); ("b", JNumber 2)])
       (mkIntegrityRecord
          "43258cff783fe7036d8a43033f830adfc60ec037382473548ac742b888292777"
          "3e43cbe40f7f28a1b2ed93f7d8288e34c19cbc1c6086457ede278dd0bb9b27df"
          3 5 "1.0.0" "md5-legacy")
     = Return (mkVerification true true true 9 5).
Proof.
  split; [discriminate|]. vm_compute. reflexivity.
Qed.

(** ** The Merkle root *)

Lemma pairs_ind (P : list string -> Prop) :
  P [] -> (forall h, P [h]) ->
  (forall l r rest, P rest -> P (l :: r :: rest)) ->
  forall hashes, P hashes.
Proof.
  intros H0 H1 H2.
  assert (A : forall hashes, P hashes /\ forall h, P (h :: hashes)).
  { induction hashes as [|x hashes [IH1 IH2]].
    - split; [exact H0 | exact H1].
    - split; [apply IH2 | intros h; apply H2; exact IH1]. }
  intros hashes. apply A.
Qed.

Lemma pairs_length (hashes : list string) :
  Z.to_nat ((Z.of_nat (List.length hashes) - 0 + 2 - 1) / 2)
  = List.length (pairs hashes).
Proof.
  induction hashes as [| h | l r rest IH] using pairs_ind;
    [reflexivity | reflexivity |].
  cbn [pairs List.length]. rewrite <- IH.
  rewrite !Nat2Z.inj_succ.
  replace (Z.succ (Z.succ (Z.of_nat (List.length rest))) - 0 + 2 - 1)
    with (Z.of_nat (List.length rest) - 0 + 2 - 1 + 1 * 2) by lia.
  rewrite Z.div_add by lia.
  rewrite Z2Nat.inj_add; [simpl; lia | | lia].
  apply Z.div_pos; lia.
Qed.

Lemma pairs_length_bound (hashes : list string) :
  (2 * List.length (pairs hashes) <= S (List.length hashes))%nat.
Proof.
  induction hashes as [| h | l r rest IH] using pairs_ind;
    cbn [pairs List.length]; lia.
Qed.

Lemma pairs_odd_last (hashes : list string) (h : string) :
  Nat.Even (List.length hashes) ->
  pairs (hashes ++ [h]) = (pairs hashes ++ [(h, h)])%list.
Proof.
  induction hashes as [| x | l r rest IH] using pairs_ind; intros E.
  - reflexivity.
  - destruct E as [k E]. cbn in E. lia.
  - cbn [pairs app]. rewrite <- IH; [reflexivity|].
    destruct E as [k E]. cbn [List.length] in E. exists (k - 1)%nat. lia.
Qed.

Lemma pairs_In (hashes : list string) (l r : string) :
  In (l, r) (pairs hashes) -> In l hashes /\ In r hashes.
Proof.
  induction hashes as [| h | a b rest IH] using pairs_ind; cbn [pairs In].
  - intros [].
  - intros [E|[]]. inversion E. subst. auto.
  - intros [E|H].
    + inversion E. subst. auto.
    + destruct (IH H). auto.
Qed.

Lemma index_app_here (pre suf : list string) (x : string) :
  index (pre ++ x :: suf) (Z.of_nat (List.length pre)) = Some x.
Proof.
  unfold index. replace (Z.of_nat (List.length pre) <? 0) with false
    by (symmetry; apply Z.ltb_ge; lia).
  rewrite Nat2Z.id, nth_error_app2 by lia.
  rewrite Nat.sub_diag. reflexivity.
Qed.

Lemma index_app_next (pre suf : list string) (x y : string) :
  index (pre ++ x :: y :: suf) (Z.of_nat (List.length pre) + 1) = Some y.
Proof.
  replace (pre ++ x :: y :: suf)%list with ((pre ++ [x]) ++ y :: suf)%list
    by (rewrite <- app_assoc; reflexivity).
  replace (Z.of_nat (List.length pre) + 1)
    with (Z.of_nat (List.length (pre ++ [x])%list))
    by (rewrite length_app; cbn [List.length]; lia).
  apply index_app_here.
Qed.

Lemma index_app_past (pre : list string) (x : string) :
  index (pre ++ [x]) (Z.of_nat (List.length pre) + 1) = None.
Proof.
  unfold index. replace (Z.of_nat (List.length pre) + 1 <? 0) with false
    by (symmetry; apply Z.ltb_ge; lia).
  apply nth_error_None. rewrite length_app. cbn [List.length]. lia.
Qed.

Lemma or_else_same (h : string) : or_else (Some h) h = h.
Proof. destruct h; reflexivity. Qed.

Lemma or_else_nonempty (l r : string) :
  r <> EmptyString -> or_else (Some r) l = r.
Proof. destruct r; [congruence | reflexivity]. Qed.

Lemma or_else_idem (l r : string) :
  or_else (Some (or_else (Some r) l)) l = or_else (Some r) l.
Proof. destruct r; cbn [or_else]; [apply or_else_same | reflexivity]. Qed.

(** The loop, started at the index [length pre] with [acc] collected so
    far, combines the pairs of what is left. *)
Lemma pair_loop_pairs (env : Env) (depth : Z) (suf pre acc : list string) :
  for_iter (List.length (pairs suf)) (Z.of_nat (List.length pre)) 2
    (fun i paired =>
       let left := or_default (index (pre ++ suf) i) EmptyString in
       let right := or_else (index (pre ++ suf) (i + 1)) left in
       h <- shaInfinity env (left ++ right) depth
              (mkOptions None None (Some false)) ;;
       Return (paired ++ [h])%list)
    acc
  = bs <- mapM (combine_pair env depth) (pairs suf) ;; Return (acc ++ bs)%list.
Proof.
  revert pre acc.
  induction suf as [| h | l r rest IH] using pairs_ind; intros pre acc.
  - cbn [pairs List.length for_iter mapM bind]. rewrite app_nil_r. reflexivity.
  - cbn [pairs List.length for_iter mapM]. cbv zeta.
    rewrite index_app_here, index_app_past.
    cbn [or_default or_else]. unfold combine_pair. cbn [fst snd].
    rewrite or_else_same.
    destruct (shaInfinity env (h ++ h) depth _); reflexivity.
  - cbn [pairs List.length for_iter mapM]. cbv zeta.
    rewrite index_app_here, index_app_next.
    cbn [or_default]. unfold combine_pair at 1. cbn [fst snd].
    destruct (shaInfinity env (l ++ or_else (Some r) l) depth _) as [x|e];
      cbn [bind]; [|reflexivity].
    specialize (IH (pre ++ [l; r])%list (acc ++ [x])%list).
    rewrite length_app in IH. cbn [List.length] in IH.
    replace (Z.of_nat (List.length pre + 2)) with (Z.of_nat (List.length pre) + 2)
      in IH by lia.
    rewrite <- app_assoc in IH. cbn [app] in IH.
    rewrite IH.
    destruct (mapM (combine_pair env depth) (pairs rest)); cbn [bind];
      [rewrite <- app_assoc|]; reflexivity.
Qed.

Lemma pair_level_pairs (env : Env) (hashes : list string) (depth : Z) :
  pair_level env hashes depth = mapM (combine_pair env depth) (pairs hashes).
Proof.
  unfold pair_level, for_loop. rewrite pairs_length.
  pose proof (pair_loop_pairs env depth hashes [] []) as L.
  cbn [app List.length Z.of_nat] in L. rewrite L.
  destruct (mapM (combine_pair env depth) (pairs hashes)); reflexivity.
Qed.

Lemma mapM_ext_in {A B : Type} (f g : A -> completion B) (l : list A) :
  (forall a, In a l -> f a = g a) -> mapM f l = mapM g l.
Proof.
  induction l as [|a l IH]; intros E; [reflexivity|].
  cbn [mapM]. rewrite (E a) by (left; reflexivity).
  rewrite IH by (intros; apply E; right; assumption). reflexivity.
Qed.

Lemma mapM_length {A B : Type} (f : A -> completion B) (l : list A)
  (bs : list B) :
  mapM f l = Return bs -> List.length bs = List.length l.
Proof.
  revert bs. induction l as [|a l IH]; intros bs; cbn [mapM].
  - intros E. inversion E. reflexivity.
  - destruct (f a); cbn [bind]; [|discriminate].
    destruct (mapM f l) as [bs'|]; cbn [bind]; [|discriminate].
    intros E. inversion E. cbn [List.length]. rewrite (IH bs' eq_refl).
    reflexivity.
Qed.

Lemma mapM_Forall {A B : Type} (f : A -> completion B) (P : B -> Prop)
  (l : list A) (bs : list B) :
  (forall a b, f a = Return b -> P b) ->
  mapM f l = Return bs -> Forall P bs.
Proof.
  intros Hf. revert bs. induction l as [|a l IH]; intros bs; cbn [mapM].
  - intros E. inversion E. constructor.
  - destruct (f a) eqn:Fa; cbn [bind]; [|discriminate].
    destruct (mapM f l) as [bs'|]; cbn [bind]; [|discriminate].
    intros E. inversion E. constructor; [eapply Hf; exact Fa | apply IH; reflexivity].
Qed.

Lemma pair_level_length (env : Env) (hashes paired : list string) (depth : Z) :
  pair_level env hashes depth = Return paired ->
  List.length paired = List.length (pairs hashes).
Proof.
  rewrite pair_level_pairs. intros E. rewrite (mapM_length _ _ _ E).
  reflexivity.
Qed.

Lemma infinityMerkleRoot_fuel_irrelevant (env : Env) (depth : Z)
  (f1 f2 : nat) (hashes : list string) :
  (List.length hashes < f1)%nat -> (List.length hashes < f2)%nat ->
  infinityMerkleRoot_fuel f1 env hashes depth
  = infinityMerkleRoot_fuel f2 env hashes depth.
Proof.
  revert f2 hashes. induction f1 as [|f1 IH]; intros f2 hashes H1 H2; [lia|].
  destruct f2 as [|f2]; [lia|]. cbn [infinityMerkleRoot_fuel].
  destruct (List.length hashes =? 0)%nat eqn:E0; [reflexivity|].
  destruct (List.length hashes =? 1)%nat eqn:E1; [reflexivity|].
  destruct (pair_level env hashes depth) as [paired|e] eqn:P; [|reflexivity].
  apply Nat.eqb_neq in E0, E1.
  pose proof (pair_level_length _ _ _ _ P) as L.
  pose proof (pairs_length_bound hashes) as B.
  apply IH; lia.
Qed.

Lemma infinityMerkleRoot_fuel_S (env : Env) (depth : Z) (fuel : nat)
  (hashes : list string) :
  infinityMerkleRoot_fuel (S fuel) env hashes depth
  = if (List.length hashes =? 0)%nat then
      Some (shaInfinity env "empty" depth no_options)
    else if (List.length hashes =? 1)%nat then
      Some (Return (or_default (index hashes 0) EmptyString))
    else
      match pair_level env hashes depth with
      | Throw e => Some (Throw e)
      | Return paired => infinityMerkleRoot_fuel fuel env paired depth
      end.
Proof. reflexivity. Qed.

Lemma infinityMerkleRoot_step (env : Env) (depth : Z) (hashes : list string) :
  (2 <= List.length hashes)%nat ->
  infinityMerkleRoot env hashes depth
  = match pair_level env hashes depth with
    | Throw e => Some (Throw e)
    | Return paired => infinityMerkleRoot env paired depth
    end.
Proof.
  intros H. unfold infinityMerkleRoot at 1. rewrite infinityMerkleRoot_fuel_S.
  destruct (List.length hashes =? 0)%nat eqn:E0;
    [apply Nat.eqb_eq in E0; lia|].
  destruct (List.length hashes =? 1)%nat eqn:E1;
    [apply Nat.eqb_eq in E1; lia|].
  destruct (pair_level env hashes depth) as [paired|e] eqn:P; [|reflexivity].
  pose proof (pair_level_length _ _ _ _ P) as L.
  pose proof (pairs_length_bound hashes) as B.
  unfold infinityMerkleRoot. apply infinityMerkleRoot_fuel_irrelevant; lia.
Qed.

(** The fuel of [infinityMerkleRoot] is enough: the call always ends, in a
    digest or in an exception. *)
Lemma infinityMerkleRoot_total (env : Env) (depth : Z) (hashes : list string) :
  exists c, infinityMerkleRoot env hashes depth = Some c.
Proof.
  unfold infinityMerkleRoot.
  assert (A : forall f hashes, (List.length hashes < f)%nat ->
              exists c, infinityMerkleRoot_fuel f env hashes depth = Some c).
  { induction f as [|f IH]; intros hs H; [lia|].
    cbn [infinityMerkleRoot_fuel].
    destruct (List.length hs =? 0)%nat eqn:E0; [eexists; reflexivity|].
    destruct (List.length hs =? 1)%nat eqn:E1; [eexists; reflexivity|].
    destruct (pair_level env hs depth) as [paired|e] eqn:P;
      [|eexists; reflexivity].
    apply Nat.eqb_neq in E0, E1.
    pose proof (pair_level_length _ _ _ _ P) as L.
    pose proof (pairs_length_bound hs) as B.
    apply IH. lia. }
  apply A. lia.
Qed.

Lemma infinityMerkleRoot_two (env : Env) (depth : Z) (l r : string) :
  infinityMerkleRoot env [l; r] depth
  = Some (shaInfinity env (l ++ or_else (Some r) l) depth
            (mkOptions None None (Some false))).
Proof.
  rewrite infinityMerkleRoot_step by (cbn; lia).
  rewrite pair_level_pairs. cbn [pairs mapM]. unfold combine_pair.
  cbn [fst snd].
  destruct (shaInfinity env (l ++ or_else (Some r) l) depth _); reflexivity.
Qed.

Lemma pair_level_fill_right (env : Env) (depth : Z) (hashes : list string) :
  pair_level env (fill_right hashes) depth = pair_level env hashes depth.
Proof.
  rewrite !pair_level_pairs.
  induction hashes as [| h | l r rest IH] using pairs_ind;
    [reflexivity | reflexivity |].
  cbn [fill_right pairs mapM]. rewrite IH.
  unfold combine_pair at 1 3. cbn [fst snd]. rewrite or_else_idem.
  reflexivity.
Qed.

Lemma fill_right_length (hashes : list string) :
  List.length (fill_right hashes) = List.length hashes.
Proof.
  induction hashes as [| h | l r rest IH] using pairs_ind;
    [reflexivity | reflexivity |].
  cbn [fill_right List.length]. rewrite IH. reflexivity.
Qed.

Lemma combine_pairs_nonempty (env : Env) (depth : Z) (hashes : list string) :
  Forall (fun h => h <> EmptyString) hashes ->
  mapM (combine_pair env depth) (pairs hashes) = combine_pairs env hashes depth.
Proof.
  intros N. unfold combine_pairs. apply mapM_ext_in. intros [l r] H.
  unfold combine_pair. cbn [fst snd].
  rewrite or_else_nonempty; [reflexivity|].
  rewrite Forall_forall in N. apply N. apply (pairs_In hashes l r H).
Qed.

Lemma shaInfinity_returns_digest (env : Env) (data : string) (depth : Z)
  (options : Options) (h : string) :
  shaInfinity env data depth options = Return h ->
  h = chained data depth options /\ String.length h = 64%nat.
Proof.
  intros E.
  destruct (Z_lt_dec depth 1) as [Hlo|Hlo];
    [rewrite shaInfinity_too_low in E by exact Hlo; discriminate|].
  destruct (Z_lt_dec 256 depth) as [Hhi|Hhi];
    [rewrite shaInfinity_too_high in E by exact Hhi; discriminate|].
  destruct (crypto env) eqn:C.
  - rewrite shaInfinity_chained in E by (try exact C; lia).
    inversion E. split; [reflexivity | apply chained_length].
  - exfalso. destruct (depth_tests depth) as [T1 T2]; [lia|].
    unfold shaInfinity in E. cbv zeta in E. rewrite T1, T2 in E.
    unfold sha256 at 1 2 in E. rewrite C in E.
    destruct (or_default (opt_useSalt options) true);
      destruct (window_crypto_subtle env); discriminate E.
Qed.

Lemma chained_nonempty (data : string) (depth : Z) (options : Options) :
  chained data depth options <> EmptyString.
Proof.
  intros H. pose proof (chained_length data depth options) as L.
  rewrite H in L. discriminate L.
Qed.

(** C5: the root of no hashes is the chained hash of ["empty"] with the
    default options; the root of one hash is that hash, not hashed again;
    a level of odd length ends in the pair of its last element with
    itself; and on hashes that are not empty strings (digests are not) the
    level the code builds is the one that combines every pair
    [(left, right)] by the chained hash of [left ++ right] without depth
    binding, the root being the root of that level, whose elements are
    again not empty.  So three hashes pair as [(h1, h2)] and [(h3, h3)].
    The recursion always ends. *)
Theorem infinityMerkleRoot_pairing (env : Env) (depth : Z) :
  infinityMerkleRoot env [] depth
  = Some (shaInfinity env "empty" depth no_options)
  /\ (forall h, infinityMerkleRoot env [h] depth = Some (Return h))
  /\ (forall hashes h,
        Nat.Even (List.length hashes) ->
        pairs (hashes ++ [h]) = (pairs hashes ++ [(h, h)])%list)
  /\ (forall hashes,
        (2 <= List.length hashes)%nat ->
        Forall (fun h => h <> EmptyString) hashes ->
        pair_level env hashes depth = combine_pairs env hashes depth
        /\ infinityMerkleRoot env hashes depth
           = match combine_pairs env hashes depth with
             | Throw e => Some (Throw e)
             | Return paired => infinityMerkleRoot env paired depth
             end
        /\ (forall paired,
              combine_pairs env hashes depth = Return paired ->
              Forall (fun h => h <> EmptyString) paired))
  /\ (forall h1 h2 h3,
        h1 <> EmptyString -> h2 <> EmptyString -> h3 <> EmptyString ->
        pairs [h1; h2; h3] = [(h1, h2); (h3, h3)]
        /\ (crypto env = true -> 1 <= depth <= 256 ->
            infinityMerkleRoot env [h1; h2; h3] depth
            = Some (Return
                      (chained
                         (chained (h1 ++ h2) depth
                            (mkOptions None None (Some false))
                          ++ chained (h3 ++ h3) depth
                               (mkOptions None None (Some false)))
                         depth (mkOptions None None (Some false))))))
  /\ (forall hashes, exists c, infinityMerkleRoot env hashes depth = Some c).
Proof.
  split; [reflexivity|]. split; [reflexivity|].
  split; [apply pairs_odd_last|]. split; [|split].
  - intros hashes L N.
    assert (E : pair_level env hashes depth = combine_pairs env hashes depth)
      by (rewrite pair_level_pairs; apply combine_pairs_nonempty; exact N).
    split; [exact E|]. split.
    + rewrite infinityMerkleRoot_step by exact L. rewrite E. reflexivity.
    + intros paired P. unfold combine_pairs in P.
      apply (mapM_Forall _ _ _ _ (fun lr b H =>
               eq_ind_r (fun s => s <> EmptyString)
                 (chained_nonempty _ _ _)
                 (proj1 (shaInfinity_returns_digest _ _ _ _ _ H))) P).
  - intros h1 h2 h3 N1 N2 N3. split; [reflexivity|]. intros C H.
    rewrite infinityMerkleRoot_step by (cbn; lia).
    rewrite pair_level_pairs. cbn [pairs mapM]. unfold combine_pair.
    cbn [fst snd]. rewrite or_else_same, (or_else_nonempty h1 h2 N2).
    rewrite !(shaInfinity_chained env _ depth _ C H). cbn [bind].
    rewrite infinityMerkleRoot_two.
    rewrite or_else_nonempty by apply chained_nonempty.
    rewrite (shaInfinity_chained env _ depth _ C H). reflexivity.
  - apply infinityMerkleRoot_total.
Qed.

Lemma infinityMerkleRoot_pairing_witness :
  "a" <> EmptyString /\ "b" <> EmptyString /\ "c" <> EmptyString
  /\ crypto node = true /\ 1 <= 2 <= 256
  /\ infinityMerkleRoot node ["a"; "b"; "c"] 2
     = Some (Return
               (chained
                  (chained "ab" 2 (mkOptions None None (Some false))
                   ++ chained "cc" 2 (mkOptions None None (Some false)))
                  2 (mkOptions None None (Some false)))).
Proof.
  do 3 (split; [discriminate|]). split; [reflexivity|]. split; [lia|].
  apply (infinityMerkleRoot_pairing node 2);
    [discriminate | discriminate | discriminate | reflexivity | lia].
Defined.

(** C10: an empty string as the right partner of a pair is replaced by
    the left partner, as if the list ended there: the root of [[h; ""]]
    is the root of [[h; h]], the chained hash of [h ++ h]; and in any list
    every empty string at a right-hand position can be replaced by the
    element on its left without changing the root. *)
Theorem infinityMerkleRoot_empty_right_partner (env : Env) (depth : Z) :
  (forall h,
     infinityMerkleRoot env [h; EmptyString] depth
     = infinityMerkleRoot env [h; h] depth)
  /\ (forall h,
        infinityMerkleRoot env [h; EmptyString] depth
        = Some (shaInfinity env (h ++ h) depth
                  (mkOptions None None (Some false))))
  /\ (forall hashes,
        infinityMerkleRoot env (fill_right hashes) depth
        = infinityMerkleRoot env hashes depth
        /\ exists c, infinityMerkleRoot env hashes depth = Some c).
Proof.
  split; [|split].
  - intros h. rewrite !infinityMerkleRoot_two. rewrite or_else_same.
    reflexivity.
  - intros h. rewrite infinityMerkleRoot_two. reflexivity.
  - intros hashes. split; [|apply infinityMerkleRoot_total].
    destruct hashes as [|l [|r rest]]; [reflexivity | reflexivity |].
    rewrite (infinityMerkleRoot_step env depth (fill_right (l :: r :: rest)))
      by (rewrite fill_right_length; cbn [List.length]; lia).
    rewrite (infinityMerkleRoot_step env depth (l :: r :: rest))
      by (cbn [List.length]; lia).
    rewrite pair_level_fill_right. reflexivity.
Qed.

(** ** The proof-of-work search *)

Lemma repeat_zero_S (n : nat) :
  repeat_nat "0" (S n) = String "0"%char (repeat_nat "0" n).
Proof. reflexivity. Qed.

Lemma startsWith_zeros (n : nat) (s : string) :
  startsWith s (repeat_nat "0" n) = true <-> (n <= leading_zeros s)%nat.
Proof.
  unfold startsWith. revert s. induction n as [|n IH]; intros s.
  - cbn [repeat_nat]. destruct s; cbn [String.prefix]; split; intros; lia || reflexivity.
  - rewrite repeat_zero_S. destruct s as [|c s]; cbn [String.prefix leading_zeros].
    + split; [discriminate | lia].
    + destruct (ascii_dec "0" c) as [<-|N].
      * cbn [Ascii.eqb Bool.eqb]. rewrite IH. lia.
      * replace (Ascii.eqb c "0") with false
          by (symmetry; apply Ascii.eqb_neq; congruence).
        split; [discriminate | lia].
Qed.

Lemma proofOfWork_loop_S (env : Env) (data : string) (depth : Z)
  (prefix : string) (fuel : nat) (nonce : Z) :
  proofOfWork_loop (S fuel) env data depth prefix nonce
  = match attempt env data depth nonce with
    | Throw e => Some (Throw e)
    | Return hash =>
        if negb (startsWith hash prefix) && (nonce + 1 <? 10000000) then
          proofOfWork_loop fuel env data depth prefix (nonce + 1)
        else Some (Return (hash, nonce + 1))
    end.
Proof. reflexivity. Qed.

(** What the loop has done when it ends in a value. *)
Lemma proofOfWork_loop_spec (env : Env) (data : string) (depth : Z)
  (prefix : string) (fuel : nat) (nonce : Z) (h : string) (n' : Z) :
  proofOfWork_loop fuel env data depth prefix nonce = Some (Return (h, n')) ->
  nonce < n'
  /\ n' <= Z.max (nonce + 1) 10000000
  /\ attempt env data depth (n' - 1) = Return h
  /\ (startsWith h prefix = false -> 10000000 <= n')
  /\ (forall k, nonce <= k < n' - 1 ->
        exists hk, attempt env data depth k = Return hk
                   /\ startsWith hk prefix = false).
Proof.
  revert nonce. induction fuel as [|fuel IH]; intros nonce; [discriminate|].
  rewrite proofOfWork_loop_S.
  destruct (attempt env data depth nonce) as [x|e] eqn:A; [|discriminate].
  destruct (startsWith x prefix) eqn:P; cbn [negb andb].
  - intros E. inversion E. subst.
    replace (nonce + 1 - 1) with nonce by lia.
    split; [lia|]. split; [lia|]. split; [exact A|].
    split; [congruence | intros; lia].
  - destruct (nonce + 1 <? 10000000) eqn:B.
    + apply Z.ltb_lt in B. intros E.
      destruct (IH _ E) as [I1 [I2 [I3 [I4 I5]]]].
      split; [lia|]. split; [lia|]. split; [exact I3|]. split; [exact I4|].
      intros k Hk. destruct (Z.eq_dec k nonce) as [->|N].
      * exists x. split; assumption.
      * apply I5. lia.
    + apply Z.ltb_ge in B. intros E. inversion E. subst.
      replace (nonce + 1 - 1) with nonce by lia.
      split; [lia|]. split; [lia|]. split; [exact A|].
      split; [intros; lia | intros; lia].
Qed.

(** With the fuel of [proofOfWork] the loop ends. *)
Lemma proofOfWork_loop_total (env : Env) (data : string) (depth : Z)
  (prefix : string) :
  crypto env = true -> 1 <= depth <= 256 ->
  forall (fuel : nat) (nonce : Z),
    (1 <= fuel)%nat -> 10000000 - nonce <= Z.of_nat fuel ->
    exists h n',
      proofOfWork_loop fuel env data depth prefix nonce = Some (Return (h, n')).
Proof.
  intros C H. induction fuel as [|fuel IH]; intros nonce F B; [lia|].
  rewrite proofOfWork_loop_S. unfold attempt.
  rewrite (shaInfinity_chained env _ depth _ C H).
  destruct (negb _ && (nonce + 1 <? 10000000)) eqn:G.
  - apply andb_prop in G. destruct G as [_ G]. apply Z.ltb_lt in G.
    apply IH; lia.
  - eexists. eexists. reflexivity.
Qed.

(** In every environment and at every depth the loop ends, in a value
    or in an exception. *)
Lemma proofOfWork_loop_ends (env : Env) (data : string) (depth : Z)
  (prefix : string) :
  forall (fuel : nat) (nonce : Z),
    (1 <= fuel)%nat -> 10000000 - nonce <= Z.of_nat fuel ->
    exists c, proofOfWork_loop fuel env data depth prefix nonce = Some c.
Proof.
  induction fuel as [|fuel IH]; intros nonce F B; [lia|].
  rewrite proofOfWork_loop_S.
  destruct (attempt env data depth nonce) as [h|e]; [|eexists; reflexivity].
  destruct (negb _ && (nonce + 1 <? 10000000)) eqn:G.
  - apply andb_prop in G. destruct G as [_ G]. apply Z.ltb_lt in G.
    apply IH; lia.
  - eexists. reflexivity.
Qed.

Lemma proofOfWork_loop_more_fuel (env : Env) (data : string) (depth : Z)
  (prefix : string) (f f' : nat) (nonce : Z)
  (c : completion (string * Z)) :
  proofOfWork_loop f env data depth prefix nonce = Some c ->
  (f <= f')%nat ->
  proofOfWork_loop f' env data depth prefix nonce = Some c.
Proof.
  revert f' nonce. induction f as [|f IH]; intros f' nonce; [discriminate|].
  intros E L. destruct f' as [|f']; [lia|].
  rewrite proofOfWork_loop_S in *.
  destruct (attempt env data depth nonce); [|exact E].
  destruct (negb _ && _); [|exact E]. apply IH; [exact E | lia].
Qed.

Lemma String_repeat_zeros (maxLength : N) (count : Z) :
  0 <= count <= Z.of_N maxLength ->
  String_repeat maxLength "0" count
  = Return (repeat_nat "0" (Z.to_nat count)).
Proof.
  intros H. unfold String_repeat.
  replace (count <? 0) with false by (symmetry; apply Z.ltb_ge; lia).
  change (Z.of_nat (String.length "0")) with 1. rewrite Z.mul_1_l.
  replace (Z.of_N maxLength <? count) with false
    by (symmetry; apply Z.ltb_ge; lia).
  reflexivity.
Qed.

Lemma String_repeat_returns (maxLength : N) (count : Z) (prefix : string) :
  String_repeat maxLength "0" count = Return prefix ->
  0 <= count <= Z.of_N maxLength
  /\ prefix = repeat_nat "0" (Z.to_nat count).
Proof.
  unfold String_repeat.
  destruct (count <? 0) eqn:D; [discriminate|]. apply Z.ltb_ge in D.
  change (Z.of_nat (String.length "0")) with 1. rewrite Z.mul_1_l.
  destruct (Z.of_N maxLength <? count) eqn:M; [discriminate|].
  apply Z.ltb_ge in M. intros E. inversion E. split; [lia | reflexivity].
Qed.

Lemma String_repeat_throws (maxLength : N) (count : Z) :
  count < 0 \/ Z.of_N maxLength < count ->
  exists message,
    String_repeat maxLength "0" count = Throw (RangeError message).
Proof.
  intros H. unfold String_repeat.
  destruct (count <? 0) eqn:D; [eexists; reflexivity|]. apply Z.ltb_ge in D.
  change (Z.of_nat (String.length "0")) with 1. rewrite Z.mul_1_l.
  replace (Z.of_N maxLength <? count) with true
    by (symmetry; apply Z.ltb_lt; lia).
  eexists. reflexivity.
Qed.

Lemma proofOfWork_more_fuel (env : Env) (data : string) (difficulty depth : Z)
  (f : nat) (c : completion ProofOfWork) :
  proofOfWork_fuel f env data difficulty depth = Some c ->
  (f <= Z.to_nat 10000000)%nat ->
  proofOfWork env data difficulty depth = Some c.
Proof.
  unfold proofOfWork, proofOfWork_fuel. intros E L.
  destruct (String_repeat _ "0" difficulty) as [prefix|e]; [|exact E].
  destruct (proofOfWork_loop f env data depth prefix 0) as [c'|] eqn:R;
    [|discriminate].
  rewrite (proofOfWork_loop_more_fuel _ _ _ _ _ _ _ _ R L). exact E.
Qed.

(** C6, as the code has it: a returned result with [verified] true has a
    hash that starts with [difficulty] characters ['0'] (it may have
    more); [attempts] is at least 1 and at most 10,000,000, and [nonce]
    is one less; with [verified] false, [attempts] is 10,000,000; if no
    nonce below 10,000,000 gives a hash with [difficulty] leading zeros
    the result has [verified] false and [attempts] 10,000,000.  The
    search always ends, and for a difficulty that is not negative and not
    above the longest string the engine makes, and a depth in [1, 256],
    it ends in a result, not in an exception. *)
Theorem proofOfWork_result (env : Env) (data : string) (difficulty depth : Z) :
  (forall r,
     proofOfWork env data difficulty depth = Some (Return r) ->
     (verified r = true ->
      (Z.to_nat difficulty <= leading_zeros (hash r))%nat)
     /\ (verified r = false ->
         (leading_zeros (hash r) < Z.to_nat difficulty)%nat
         /\ attempts r = 10000000)
     /\ 1 <= attempts r <= 10000000
     /\ nonce r = attempts r - 1
     /\ attempt env data depth (nonce r) = Return (hash r)
     /\ ((forall n h,
            0 <= n < 10000000 -> attempt env data depth n = Return h ->
            (leading_zeros h < Z.to_nat difficulty)%nat) ->
         verified r = false /\ attempts r = 10000000))
  /\ (crypto env = true ->
      0 <= difficulty <= Z.of_N (max_string_length env) ->
      1 <= depth <= 256 ->
      exists r, proofOfWork env data difficulty depth = Some (Return r))
  /\ (exists c, proofOfWork env data difficulty depth = Some c).
Proof.
  split; [|split].
  - intros r. unfold proofOfWork, proofOfWork_fuel.
    destruct (String_repeat (max_string_length env) "0" difficulty)
      as [prefix|e0] eqn:P; [|discriminate].
    destruct (String_repeat_returns _ _ _ P) as [_ ->].
    destruct (proofOfWork_loop _ env data depth _ 0) as [[[h n']|e]|] eqn:R;
      [|discriminate|discriminate].
    intros E. inversion E. subst r. clear E.
    cbn [hash nonce attempts verified].
    destruct (proofOfWork_loop_spec _ _ _ _ _ _ _ _ R) as [I1 [I2 [I3 [I4 _]]]].
    assert (V : startsWith h (repeat_nat "0" (Z.to_nat difficulty)) = false ->
                (leading_zeros h < Z.to_nat difficulty)%nat).
    { intros V. destruct (le_lt_dec (Z.to_nat difficulty) (leading_zeros h))
        as [L|L]; [|exact L].
      apply startsWith_zeros in L. congruence. }
    split; [apply startsWith_zeros|].
    split; [intros V'; split; [apply V; exact V' | specialize (I4 V'); lia]|].
    split; [lia|]. split; [reflexivity|]. split; [exact I3|].
    intros A.
    assert (F : startsWith h (repeat_nat "0" (Z.to_nat difficulty)) = false).
    { destruct (startsWith h _) eqn:S; [|reflexivity].
      apply startsWith_zeros in S.
      specialize (A (n' - 1) h). assert (0 <= n' - 1 < 10000000) by lia.
      specialize (A H I3). lia. }
    split; [exact F | specialize (I4 F); lia].
  - intros C D H. unfold proofOfWork, proofOfWork_fuel.
    rewrite (String_repeat_zeros _ _ D).
    destruct (proofOfWork_loop_total env data depth
                (repeat_nat "0" (Z.to_nat difficulty)) C H
                (Z.to_nat 10000000) 0) as [h [n' R]]; [lia | lia |].
    rewrite R. eexists. reflexivity.
  - unfold proofOfWork, proofOfWork_fuel.
    destruct (String_repeat (max_string_length env) "0" difficulty)
      as [prefix|e0]; [|eexists; reflexivity].
    destruct (proofOfWork_loop_ends env data depth prefix
                (Z.to_nat 10000000) 0) as [c R]; [lia | lia |].
    rewrite R. destruct c as [[h n']|e]; eexists; reflexivity.
Qed.

Lemma proofOfWork_task :
  proofOfWork node "task" 1 1
  = Some (Return
            (mkProofOfWork
               "005e46b290887232d29635918da60487528b9382429306057b5ce9fe43d5979c"
               12 13 true)).
Proof.
  apply (proofOfWork_more_fuel node "task" 1 1 20); [|lia].
  vm_compute. reflexivity.
Qed.

Lemma proofOfWork_result_witness :
  proofOfWork node "task" 1 1
  = Some (Return
            (mkProofOfWork
               "005e46b290887232d29635918da60487528b9382429306057b5ce9fe43d5979c"
               12 13 true))
  /\ (Z.to_nat 1
      <= leading_zeros
           "005e46b290887232d29635918da60487528b9382429306057b5ce9fe43d5979c")%nat
  /\ 1 <= 13 <= 10000000.
Proof.
  split; [exact proofOfWork_task|].
  destruct (proj1 (proofOfWork_result node "task" 1 1) _ proofOfWork_task)
    as [H1 [_ [H3 _]]].
  split; [apply H1; reflexivity | exact H3].
Defined.

(** C6 fails as stated: the search for ["task"] at difficulty 1 and depth
    1 returns a verified hash with two leading zeros, not one. *)
Lemma proofOfWork_more_zeros_than_difficulty :
  proofOfWork node "task" 1 1
  = Some (Return
            (mkProofOfWork
               "005e46b290887232d29635918da60487528b9382429306057b5ce9fe43d5979c"
               12 13 true))
  /\ leading_zeros
       "005e46b290887232d29635918da60487528b9382429306057b5ce9fe43d5979c"
     = 2%nat
  /\ Z.to_nat 1 <> 2%nat.
Proof.
  split; [exact proofOfWork_task|]. split; [reflexivity | discriminate].
Qed.

(** ** The canonical serializer *)

Lemma compare_not_gt_trans (s1 : string) :
  forall s2 s3,
    String.compare s1 s2 <> Gt -> String.compare s2 s3 <> Gt ->
    String.compare s1 s3 <> Gt.
Proof.
  induction s1 as [|c1 s1 IH]; intros [|c2 s2] [|c3 s3];
    cbn [String.compare]; try congruence.
  unfold Ascii.compare.
  destruct (N.compare_spec (N_of_ascii c1) (N_of_ascii c2));
    destruct (N.compare_spec (N_of_ascii c2) (N_of_ascii c3));
    destruct (N.compare_spec (N_of_ascii c1) (N_of_ascii c3));
    try congruence; try lia.
  apply IH.
Qed.

Lemma leb_trans (s1 s2 s3 : string) :
  String.leb s1 s2 = true -> String.leb s2 s3 = true ->
  String.leb s1 s3 = true.
Proof.
  unfold String.leb. intros H1 H2.
  pose proof (compare_not_gt_trans s1 s2 s3) as T.
  destruct (String.compare s1 s2); destruct (String.compare s2 s3);
    destruct (String.compare s1 s3); try reflexivity; try discriminate;
    exfalso; apply T; congruence.
Qed.

Lemma leb_false_flip (s1 s2 : string) :
  String.leb s1 s2 = false -> String.leb s2 s1 = true.
Proof.
  intros H. destruct (String.leb_total s1 s2) as [T|T]; congruence.
Qed.

Lemma sort_insert_comm (x y : string) (l : list string) :
  sort_insert x (sort_insert y l) = sort_insert y (sort_insert x l).
Proof.
  induction l as [|z l IH].
  - cbn [sort_insert].
    destruct (String.leb x y) eqn:Hxy; destruct (String.leb y x) eqn:Hyx;
      try reflexivity.
    + rewrite (String.leb_antisym x y Hxy Hyx). reflexivity.
    + apply leb_false_flip in Hxy. congruence.
  - cbn [sort_insert].
    destruct (String.leb y z) eqn:Hyz; destruct (String.leb x z) eqn:Hxz;
      cbn [sort_insert]; rewrite ?Hyz, ?Hxz.
    + destruct (String.leb x y) eqn:Hxy; destruct (String.leb y x) eqn:Hyx;
        try reflexivity.
      * rewrite (String.leb_antisym x y Hxy Hyx). reflexivity.
      * apply leb_false_flip in Hxy. congruence.
    + destruct (String.leb x y) eqn:Hxy; [|reflexivity].
      rewrite (leb_trans x y z Hxy Hyz) in Hxz. discriminate.
    + destruct (String.leb y x) eqn:Hyx; [|reflexivity].
      rewrite (leb_trans y x z Hyx Hxz) in Hyz. discriminate.
    + rewrite IH. reflexivity.
Qed.

Lemma sort_Permutation_eq (l1 l2 : list string) :
  Permutation l1 l2 -> sort l1 = sort l2.
Proof.
  unfold sort. induction 1 as [| x l1 l2 _ IH | x y l | l1 l2 l3 _ IH1 _ IH2].
  - reflexivity.
  - cbn [fold_right]. rewrite IH. reflexivity.
  - cbn [fold_right]. apply sort_insert_comm.
  - rewrite IH1. exact IH2.
Qed.

Lemma sort_insert_Permutation (x : string) (l : list string) :
  Permutation (x :: l) (sort_insert x l).
Proof.
  induction l as [|y l IH]; cbn [sort_insert]; [reflexivity|].
  destruct (String.leb x y); [reflexivity|].
  rewrite perm_swap. apply perm_skip. exact IH.
Qed.

Lemma sort_Permutation (l : list string) : Permutation l (sort l).
Proof.
  unfold sort. induction l as [|x l IH]; cbn [fold_right]; [reflexivity|].
  rewrite <- sort_insert_Permutation. apply perm_skip. exact IH.
Qed.

Lemma sort_insert_Sorted (x : string) (l : list string) :
  Sorted (fun a b => String.leb a b = true) l ->
  Sorted (fun a b => String.leb a b = true) (sort_insert x l).
Proof.
  induction 1 as [|y l S IH Hd]; cbn [sort_insert].
  - repeat constructor.
  - destruct (String.leb x y) eqn:Hxy.
    + constructor; [constructor; assumption | constructor; exact Hxy].
    + constructor; [exact IH|].
      apply leb_false_flip in Hxy.
      destruct Hd as [|z l' Hyz]; cbn [sort_insert]; [constructor; exact Hxy|].
      destruct (String.leb x z); constructor; assumption.
Qed.

Lemma sort_Sorted (l : list string) :
  Sorted (fun a b => String.leb a b = true) (sort l).
Proof.
  unfold sort. induction l as [|x l IH]; cbn [fold_right];
    [constructor | apply sort_insert_Sorted; exact IH].
Qed.

Lemma get_Permutation {A : Type} (p1 p2 : list (string * A)) (key : string) :
  NoDup (Object_keys p1) -> Permutation p1 p2 -> get p1 key = get p2 key.
Proof.
  intros N P. revert N.
  induction P as [| [k v] l1 l2 P IH | [k1 v1] [k2 v2] l | l1 l2 l3 P1 IH1 P2 IH2];
    intros N.
  - reflexivity.
  - cbn [get]. inversion N. subst. rewrite IH by assumption. reflexivity.
  - cbn [get]. destruct (String.eqb k2 key) eqn:E2;
      destruct (String.eqb k1 key) eqn:E1; try reflexivity.
    apply String.eqb_eq in E1, E2. subst.
    inversion N as [|? ? Hn _]. exfalso. apply Hn. left. reflexivity.
  - rewrite IH1 by exact N. apply IH2.
    unfold Object_keys in *.
    apply (Permutation_NoDup (Permutation_map fst P1) N).
Qed.

Lemma render_properties_keys (p : list (string * json)) :
  Object_keys (render_properties p) = Object_keys p.
Proof.
  unfold Object_keys, render_properties. rewrite map_map.
  apply map_ext. intros [k v]. reflexivity.
Qed.

Lemma get_render_properties (p : list (string * json)) (key : string) :
  get (render_properties p) key = option_map stableStringify (get p key).
Proof.
  induction p as [|[k v] p IH]; [reflexivity|].
  cbn [render_properties map get]. destruct (String.eqb k key); [reflexivity|].
  exact IH.
Qed.

Lemma stableStringify_JObject (p : list (string * json)) :
  stableStringify (JObject p)
  = "{" ++ join ","
             (map (fun key =>
                     JSON_stringify_string key ++ ":"
                       ++ or_default (get (render_properties p) key) "undefined")
                  (sort (Object_keys p)))
        ++ "}".
Proof. reflexivity. Qed.

Lemma stableStringify_JArray (l : list json) :
  stableStringify (JArray l) = "[" ++ join "," (map stableStringify l) ++ "]".
Proof. reflexivity. Qed.

(** The serialization of an object in the shape of the source: the sorted
    keys, each with the serialization of [obj[key]]. *)
Lemma stableStringify_object (p : list (string * json)) :
  stableStringify (JObject p)
  = "{" ++ join ","
             (map (fun key =>
                     JSON_stringify_string key ++ ":"
                       ++ match get p key with
                          | Some value => stableStringify value
                          | None => "undefined"
                          end)
                  (sort (Object_keys p)))
        ++ "}".
Proof.
  rewrite stableStringify_JObject. do 3 f_equal. apply map_ext. intros key.
  rewrite get_render_properties. destruct (get p key); reflexivity.
Qed.

Lemma get_In {A : Type} (p : list (string * A)) :
  NoDup (Object_keys p) ->
  forall key value, In (key, value) p -> get p key = Some value.
Proof.
  induction p as [|[k v] p IH]; intros N key value I; [destruct I|].
  cbn [Object_keys map fst] in N. inversion N as [|? ? Hk Hp]. subst.
  cbn [get]. destruct I as [E|I].
  - inversion E. subst. rewrite String.eqb_refl. reflexivity.
  - destruct (String.eqb k key) eqn:Q; [|apply IH; assumption].
    apply String.eqb_eq in Q. subst. exfalso. apply Hk.
    apply (in_map fst) in I. exact I.
Qed.

Lemma stableStringify_Permutation (p1 p2 : list (string * json)) :
  NoDup (Object_keys p1) -> Permutation p1 p2 ->
  stableStringify (JObject p1) = stableStringify (JObject p2).
Proof.
  intros N P. rewrite !stableStringify_JObject.
  rewrite (sort_Permutation_eq (Object_keys p1) (Object_keys p2))
    by (apply Permutation_map; exact P).
  do 3 f_equal. apply map_ext. intros key.
  rewrite (get_Permutation (render_properties p1) (render_properties p2) key);
    [reflexivity | rewrite render_properties_keys; exact N |].
  apply Permutation_map. exact P.
Qed.

Lemma same_content_ind (P : json -> json -> Prop) :
  (forall v, P v v) ->
  (forall l1 l2,
     Forall2 (fun a b => same_content a b /\ P a b) l1 l2 ->
     P (JArray l1) (JArray l2)) ->
  (forall p1 p p2,
     NoDup (Object_keys p1) -> Permutation p1 p ->
     Forall2 (fun a b => fst a = fst b /\ same_content (snd a) (snd b)
                         /\ P (snd a) (snd b)) p p2 ->
     P (JObject p1) (JObject p2)) ->
  forall v w, same_content v w -> P v w.
Proof.
  intros Hr Ha Ho. fix IH 3. intros v w H.
  destruct H as [v | l1 l2 F | p1 p p2 N Pm F].
  - apply Hr.
  - apply Ha. revert l1 l2 F. fix IHF 3. intros l1 l2 F.
    destruct F as [|a b l1 l2 Hab F]; constructor.
    + split; [exact Hab | apply IH; exact Hab].
    + apply IHF. exact F.
  - apply (Ho p1 p p2 N Pm). clear N Pm. revert p p2 F. fix IHF 3.
    intros p p2 F. destruct F as [|a b p p2 [Hk Hab] F]; constructor.
    + split; [exact Hk|]. split; [exact Hab | apply IH; exact Hab].
    + apply IHF. exact F.
Qed.

Lemma stableStringify_same_content (v w : json) :
  same_content v w -> stableStringify v = stableStringify w.
Proof.
  induction 1 as [v | l1 l2 F | p1 p p2 N Pm F] using same_content_ind.
  - reflexivity.
  - assert (E : map stableStringify l1 = map stableStringify l2).
    { induction F as [|a b l1 l2 [_ E] _ IH]; [reflexivity|].
      cbn [map]. rewrite E, IH. reflexivity. }
    rewrite !stableStringify_JArray, E. reflexivity.
  - rewrite (stableStringify_Permutation p1 p N Pm).
    rewrite !stableStringify_JObject.
    assert (E : render_properties p = render_properties p2).
    { clear N Pm.
      induction F as [|[k1 v1] [k2 v2] p p2 [Hk [_ E]] _ IH]; [reflexivity|].
      cbn [fst snd] in Hk, E. unfold render_properties in *. cbn [map].
      rewrite Hk, E, IH. reflexivity. }
    rewrite <- (render_properties_keys p), <- (render_properties_keys p2), E.
    reflexivity.
Qed.

(** C7: two objects with the same properties listed in a different order
    serialize to the same string, at the top and at any depth below
    ([same_content]).  An object is written as an opening brace, then for
    every key of the object, the keys taken in ascending order, the key as
    a JSON string, a colon and the serialization of the value the object
    has at that key, the properties separated by commas, then a closing
    brace; an array is written in the order of its elements; a scalar as
    [JSON.stringify] writes it.  So [{a:1,b:2}] and [{b:2,a:1}] give the
    same string, [[1,2]] and [[2,1]] different ones. *)
Theorem stableStringify_key_order :
  (forall p1 p2 : list (string * json),
     NoDup (Object_keys p1) -> Permutation p1 p2 ->
     stableStringify (JObject p1) = stableStringify (JObject p2))
  /\ (forall v w, same_content v w -> stableStringify v = stableStringify w)
  /\ (forall p : list (string * json),
        Sorted (fun a b => String.leb a b = true) (sort (Object_keys p))
        /\ Permutation (Object_keys p) (sort (Object_keys p)))
  /\ (forall p : list (string * json),
        stableStringify (JObject p)
        = "{" ++ join ","
                   (map (fun key =>
                           JSON_stringify_string key ++ ":"
                             ++ match get p key with
                                | Some value => stableStringify value
                                | None => "undefined"
                                end)
                        (sort (Object_keys p)))
              ++ "}")
  /\ (forall p : list (string * json),
        NoDup (Object_keys p) ->
        forall key value,
          In (key, value) p -> get p key = Some value)
  /\ (forall l,
        stableStringify (JArray l)
        = "[" ++ join "," (map stableStringify l) ++ "]")
  /\ stableStringify JNull = "null"
  /\ stableStringify (JBool true) = "true"
  /\ stableStringify (JBool false) = "false"
  /\ (forall n, stableStringify (JNumber n) = decimal n)
  /\ (forall s, stableStringify (JString s) = JSON_stringify_string s)
  /\ stableStringify (JObject [("a", JNumber 1); ("b", JNumber 2)])
     = stableStringify (JObject [("b", JNumber 2); ("a", JNumber 1)])
  /\ stableStringify (JArray [JNumber 1; JNumber 2])
     <> stableStringify (JArray [JNumber 2; JNumber 1]).
Proof.
  split; [apply stableStringify_Permutation|].
  split; [apply stableStringify_same_content|].
  split; [intros p; split; [apply sort_Sorted | apply sort_Permutation]|].
  split; [apply stableStringify_object|].
  split; [apply get_In|].
  split; [apply stableStringify_JArray|].
  do 5 (split; [reflexivity|]).
  split; [reflexivity | discriminate].
Qed.

Lemma stableStringify_key_order_witness :
  NoDup (Object_keys [("b", JArray [JNull]); ("a", JBool true)])
  /\ Permutation [("b", JArray [JNull]); ("a", JBool true)]
       [("a", JBool true); ("b", JArray [JNull])]
  /\ stableStringify (JObject [("b", JArray [JNull]); ("a", JBool true)])
     = stableStringify (JObject [("a", JBool true); ("b", JArray [JNull])]).
Proof.
  assert (N : NoDup (Object_keys [("b", JArray [JNull]); ("a", JBool true)])).
  { repeat constructor; cbn; intuition discriminate. }
  assert (P : Permutation [("b", JArray [JNull]); ("a", JBool true)]
                [("a", JBool true); ("b", JArray [JNull])])
    by apply perm_swap.
  split; [exact N|]. split; [exact P|].
  exact (proj1 stableStringify_key_order _ _ N P).
Defined.

(** ** Depth binding *)

Lemma append_inj_length (a b x y : string) :
  String.length a = String.length b -> a ++ x = b ++ y -> a = b /\ x = y.
Proof.
  revert b. induction a as [|c a IH]; intros [|d b] L E;
    try discriminate L.
  - split; [reflexivity | exact E].
  - cbn [append] in E. inversion E as [[Hc Hr]]. cbn [String.length] in L.
    destruct (IH b) as [-> ->]; [congruence | exact Hr |]. split; reflexivity.
Qed.

Lemma iter_digest_length (n : nat) (s : string) :
  String.length (Nat.iter (S n) createHash_sha256_hex s) = 64%nat.
Proof. cbn [Nat.iter nat_rect]. apply createHash_sha256_hex_length. Qed.

(** At the default options the strings that go into the last digest at
    depths 7 and 8 are never the same: they end in the depth. *)
Lemma depth_binding_inputs_differ (s : string) :
  Nat.iter 6 createHash_sha256_hex (createHash_sha256_hex s)
    ++ ":depth:" ++ decimal 7
  <> Nat.iter 7 createHash_sha256_hex (createHash_sha256_hex s)
       ++ ":depth:" ++ decimal 8.
Proof.
  intros E. apply append_inj_length in E.
  - destruct E as [_ E]. discriminate E.
  - rewrite !iter_digest_length. reflexivity.
Qed.

(** So equal chained hashes at depths 7 and 8 would exhibit two different
    strings with the same SHA-256 digest. *)
Lemma shaInfinity_depth_7_8_collision (env : Env) (data : string) :
  crypto env = true ->
  shaInfinity env data 7 no_options = shaInfinity env data 8 no_options ->
  exists x y,
    x <> y /\ createHash_sha256_hex x = createHash_sha256_hex y.
Proof.
  intros C E.
  rewrite !shaInfinity_chained in E by (try exact C; lia).
  unfold chained in E.
  cbn [or_default opt_useSalt opt_salt opt_includeDepthInHash no_options] in E.
  cbv zeta in E.
  change (Z.to_nat (7 - 1)) with 6%nat in E.
  change (Z.to_nat (8 - 1)) with 7%nat in E.
  pose proof (f_equal (fun c => match c with
                                | Return a => a
                                | Throw _ => EmptyString
                                end) E) as E'.
  cbv beta iota in E'.
  eexists. eexists. split; [|exact E']. apply depth_binding_inputs_differ.
Qed.

Lemma shaInfinity_depth_7_8_hello :
  shaInfinity node "hello" 7 no_options
  = Return "156fb0a24218d62146d8f8d823865b2e36ad8a0b5d3481ba6819a2569a4e4fe4"
  /\ shaInfinity node "hello" 8 no_options
     = Return "b086ac5010e6cdbeaf93d3e7f195bcc4eef606dbb51159bfdf7ce218fb513aa1".
Proof. split; vm_compute; reflexivity. Qed.

(** * Further properties of the two modules *)

(** ** The form of a digest *)

Lemma hexdigit_lower (d : Z) :
  0 <= d < 16 -> is_lower_hex (hexdigit d) = true.
Proof.
  intros H. unfold hexdigit.
  assert (L : (Z.to_nat d < 16)%nat) by lia.
  destruct (Z.to_nat d) as [|n]; [reflexivity|].
  do 15 (destruct n as [|n]; [reflexivity|]). lia.
Qed.

Lemma hex_all_lower (bs : list Z) :
  Forall (fun b => 0 <= b < 256) bs -> all_chars is_lower_hex (hex bs) = true.
Proof.
  unfold hex. induction 1 as [|b bs Hb _ IH]; [reflexivity|].
  cbn [flat_map app string_of_list_ascii all_chars].
  rewrite IH, !hexdigit_lower; [reflexivity | |];
    Z.div_mod_to_equations; lia.
Qed.

Lemma createHash_is_digest (data : string) :
  is_digest (createHash_sha256_hex data) = true.
Proof.
  unfold is_digest. rewrite createHash_sha256_hex_length.
  unfold createHash_sha256_hex. rewrite hex_all_lower by apply digest_range.
  reflexivity.
Qed.

Lemma chained_is_digest (data : string) (depth : Z) (options : Options) :
  is_digest (chained data depth options) = true.
Proof.
  unfold chained. cbv zeta.
  destruct (or_default (opt_includeDepthInHash options) true);
    [apply createHash_is_digest|].
  destruct (Z.to_nat (depth - 1)) as [|n].
  - cbn [Nat.iter nat_rect].
    destruct (or_default (opt_useSalt options) true);
      apply createHash_is_digest.
  - cbn [Nat.iter nat_rect]. apply createHash_is_digest.
Qed.

Lemma lowercase_fixed_all : forallb lowercase_fixed (seq 0 256) = true.
Proof. vm_compute. reflexivity. Qed.

Lemma toLowerCase_unit_hex (c : ascii) :
  is_lower_hex c = true -> toLowerCase_unit c = c.
Proof.
  intros H. pose proof lowercase_fixed_all as A.
  rewrite forallb_forall in A. specialize (A (nat_of_ascii c)).
  unfold lowercase_fixed in A. rewrite ascii_nat_embedding, H in A.
  apply Ascii.eqb_eq. apply A. apply in_seq.
  pose proof (nat_ascii_bounded c). lia.
Qed.

Lemma toLowerCase_hex (s : string) :
  all_chars is_lower_hex s = true -> toLowerCase s = s.
Proof.
  induction s as [|c s IH]; [reflexivity|]. cbn [all_chars toLowerCase].
  intros H. apply andb_prop in H. destruct H as [Hc Hs].
  rewrite (toLowerCase_unit_hex c Hc), (IH Hs). reflexivity.
Qed.

Lemma toLowerCase_digest (h : string) :
  is_digest h = true -> toLowerCase h = h.
Proof.
  unfold is_digest. intros H. apply andb_prop in H.
  apply toLowerCase_hex. apply H.
Qed.

Lemma sha256_returns (env : Env) (data h : string) :
  sha256 env data = Return h -> h = createHash_sha256_hex data.
Proof.
  unfold sha256. destruct (crypto env); [congruence|].
  destruct (window_crypto_subtle env); discriminate.
Qed.

Lemma sha256Async_returns (env : Env) (data h : string) :
  sha256Async env data = Return h -> h = createHash_sha256_hex data.
Proof.
  intros E. destruct (window_crypto_subtle env) eqn:W.
  - rewrite sha256Async_available in E by (right; exact W). congruence.
  - unfold sha256Async in E. rewrite W in E. apply (sha256_returns env). exact E.
Qed.

Lemma shaInfinityAsync_returns (env : Env) (data : string) (depth : Z)
  (options : Options) (h : string) :
  shaInfinityAsync env data depth options = Return h ->
  h = chained data depth options /\ 1 <= depth <= 256.
Proof.
  intros E.
  assert (R : 1 <= depth <= 256).
  { destruct (Z_lt_dec depth 1) as [Hlo|Hlo].
    - unfold shaInfinityAsync in E. cbv zeta in E.
      replace (depth <? minDepth DEFAULT_CONFIG) with true in E
        by (symmetry; apply Z.ltb_lt; exact Hlo).
      discriminate E.
    - destruct (Z_lt_dec 256 depth) as [Hhi|Hhi]; [|lia].
      unfold shaInfinityAsync in E. cbv zeta in E.
      replace (depth >? maxDepth DEFAULT_CONFIG) with true in E
        by (symmetry; rewrite Z.gtb_ltb; apply Z.ltb_lt; exact Hhi).
      rewrite orb_true_r in E. discriminate E. }
  split; [|exact R].
  destruct (crypto env) eqn:C;
    [rewrite shaInfinityAsync_chained in E by (try exact R; left; exact C);
     congruence|].
  destruct (window_crypto_subtle env) eqn:W;
    [rewrite shaInfinityAsync_chained in E by (try exact R; right; exact W);
     congruence|].
  exfalso. destruct (depth_tests depth R) as [T1 T2].
  unfold shaInfinityAsync in E. cbv zeta in E. rewrite T1, T2 in E.
  cbn [orb] in E. unfold sha256Async at 1 2 in E. rewrite W in E.
  unfold sha256 in E. rewrite C, W in E.
  destruct (or_default (opt_useSalt options) true); discriminate E.
Qed.

(** X1: whatever digest one of the four hashing functions returns, in
    whatever environment, is sixty-four lowercase hexadecimal characters. *)
Theorem returned_digests_are_lower_hex (env : Env) (data : string)
  (depth : Z) (options : Options) (h : string) :
  sha256 env data = Return h
  \/ sha256Async env data = Return h
  \/ shaInfinity env data depth options = Return h
  \/ shaInfinityAsync env data depth options = Return h ->
  is_digest h = true.
Proof.
  intros [E|[E|[E|E]]].
  - rewrite (sha256_returns _ _ _ E). apply createHash_is_digest.
  - rewrite (sha256Async_returns _ _ _ E). apply createHash_is_digest.
  - rewrite (proj1 (shaInfinity_returns_digest _ _ _ _ _ E)).
    apply chained_is_digest.
  - rewrite (proj1 (shaInfinityAsync_returns _ _ _ _ _ E)).
    apply chained_is_digest.
Qed.

Lemma returned_digests_are_lower_hex_witness :
  is_digest "ecd26292b7f02970ca6909abb23e1aedd0dd57d0ee9ff40bf3f30c325e3e453a"
  = true.
Proof.
  apply (returned_digests_are_lower_hex node "hello" 3
           (mkOptions (Some false) None (Some false))).
  right. right. left. vm_compute. reflexivity.
Defined.

(** ** Verification of a hash *)

(** X2: [verifyHash] accepts the digest [sha256] returns for the same
    data; it accepts an expected hash exactly when its lowercase form is
    that digest, so uppercase hexadecimal is accepted too; and where
    [sha256] throws, [verifyHash] throws the same exception instead of
    answering false. *)
Theorem verifyHash_round_trip (env : Env) (data : string) :
  (forall h,
     sha256 env data = Return h ->
     verifyHash env data h = Return true
     /\ forall expectedHash,
          verifyHash env data expectedHash = Return true
          <-> toLowerCase expectedHash = h)
  /\ (forall e expectedHash,
        sha256 env data = Throw e ->
        verifyHash env data expectedHash = Throw e).
Proof.
  split.
  - intros h E. pose proof (sha256_returns _ _ _ E) as Hh.
    unfold verifyHash. rewrite E. cbn [bind]. split.
    + rewrite toLowerCase_digest
        by (rewrite Hh; apply createHash_is_digest).
      rewrite String.eqb_refl. reflexivity.
    + intros expectedHash. split.
      * intros V. inversion V as [V']. apply String.eqb_eq in V'. congruence.
      * intros <-. rewrite String.eqb_refl. reflexivity.
  - intros e expectedHash E. unfold verifyHash. rewrite E. reflexivity.
Qed.

Lemma verifyHash_round_trip_witness :
  sha256 node "abc"
  = Return "ba7816bf8f01cfea414140de5dae2223b00361a396177a9cb410ff61f20015ad"
  /\ verifyHash node "abc"
       "BA7816BF8F01CFEA414140DE5DAE2223B00361A396177A9CB410FF61F20015AD"
     = Return true.
Proof.
  assert (E : sha256 node "abc"
              = Return "ba7816bf8f01cfea414140de5dae2223b00361a396177a9cb410ff61f20015ad")
    by (vm_compute; reflexivity).
  split; [exact E|].
  apply (proj1 (verifyHash_round_trip node "abc") _ E). reflexivity.
Defined.

(** X3: [verifyInfinityHash] accepts the digest [shaInfinity] returns for
    the same data, depth and options, and an expected hash exactly when
    its lowercase form is that digest; where [shaInfinity] throws, for a
    depth outside [1, 256] say, the verification throws the same exception
    instead of answering false. *)
Theorem verifyInfinityHash_round_trip (env : Env) (data : string)
  (depth : Z) (options : Options) :
  (forall h,
     shaInfinity env data depth options = Return h ->
     verifyInfinityHash env data h depth options = Return true
     /\ forall expectedHash,
          verifyInfinityHash env data expectedHash depth options = Return true
          <-> toLowerCase expectedHash = h)
  /\ (forall e expectedHash,
        shaInfinity env data depth options = Throw e ->
        verifyInfinityHash env data expectedHash depth options = Throw e)
  /\ (depth < 1 \/ 256 < depth ->
      forall expectedHash,
      exists e,
        verifyInfinityHash env data expectedHash depth options = Throw e
        /\ InvalidDepthError e).
Proof.
  split; [|split].
  - intros h E.
    pose proof (proj1 (shaInfinity_returns_digest _ _ _ _ _ E)) as Hh.
    unfold verifyInfinityHash. rewrite E. cbn [bind]. split.
    + rewrite toLowerCase_digest by (rewrite Hh; apply chained_is_digest).
      rewrite String.eqb_refl. reflexivity.
    + intros expectedHash. split.
      * intros V. inversion V as [V']. apply String.eqb_eq in V'. congruence.
      * intros <-. rewrite String.eqb_refl. reflexivity.
  - intros e expectedHash E. unfold verifyInfinityHash. rewrite E. reflexivity.
  - intros [H|H] expectedHash; unfold verifyInfinityHash.
    + rewrite shaInfinity_too_low by exact H. eexists.
      split; [reflexivity | left; reflexivity].
    + rewrite shaInfinity_too_high by exact H. eexists.
      split; [reflexivity | right; reflexivity].
Qed.

Lemma verifyInfinityHash_round_trip_witness :
  shaInfinity node "hello" 3 (mkOptions (Some false) None (Some false))
  = Return "ecd26292b7f02970ca6909abb23e1aedd0dd57d0ee9ff40bf3f30c325e3e453a"
  /\ verifyInfinityHash node "hello"
       "ecd26292b7f02970ca6909abb23e1aedd0dd57d0ee9ff40bf3f30c325e3e453a"
       3 (mkOptions (Some false) None (Some false))
     = Return true.
Proof.
  assert (E : shaInfinity node "hello" 3
                (mkOptions (Some false) None (Some false))
              = Return "ecd26292b7f02970ca6909abb23e1aedd0dd57d0ee9ff40bf3f30c325e3e453a")
    by (vm_compute; reflexivity).
  split; [exact E|].
  exact (proj1 (proj1 (verifyInfinityHash_round_trip node "hello" 3
                         (mkOptions (Some false) None (Some false))) _ E)).
Defined.

(** ** The asynchronous counterparts *)

(** X4: the asynchronous primitive returns the digest wherever Node's
    [crypto] or the browser's [crypto.subtle] is there, with the same
    string the synchronous one returns under Node; it throws only where
    neither is there, while the synchronous one also throws where only
    [crypto.subtle] is there. *)
Theorem sha256Async_by_environment (env : Env) (data : string) :
  (crypto env = true \/ window_crypto_subtle env = true ->
   sha256Async env data = sha256 node data)
  /\ (crypto env = true -> sha256 env data = sha256 node data)
  /\ (crypto env = false -> window_crypto_subtle env = true ->
      sha256 env data = Throw (Error "Use sha256Async for browser environments"))
  /\ (crypto env = false -> window_crypto_subtle env = false ->
      sha256 env data = Throw (Error "No crypto implementation available")
      /\ sha256Async env data
         = Throw (Error "No crypto implementation available")).
Proof.
  split; [|split; [|split]].
  - intros A. rewrite (sha256Async_available env data A). reflexivity.
  - intros C. rewrite (sha256_node env data C). reflexivity.
  - intros C W. unfold sha256. rewrite C, W. reflexivity.
  - intros C W. unfold sha256Async, sha256. rewrite C, W. split; reflexivity.
Qed.

Lemma sha256Async_by_environment_witness :
  (crypto browser = true \/ window_crypto_subtle browser = true)
  /\ sha256Async browser "abc" = sha256 node "abc".
Proof.
  split; [right; reflexivity|].
  apply (sha256Async_by_environment browser "abc"). right. reflexivity.
Defined.

(** X5: with the synchronous functions run under Node and the
    asynchronous ones where Node's [crypto] or [crypto.subtle] is there,
    [hashObjectAsync] and [verifyHashAsync] give what [hashObject] and
    [verifyHash] give, and at a depth in [1, 256] so does
    [verifyInfinityHashAsync] with [verifyInfinityHash]. *)
Theorem async_counterparts_agree (sync_env async_env : Env) :
  crypto sync_env = true ->
  crypto async_env = true \/ window_crypto_subtle async_env = true ->
  (forall obj sortKeys,
     hashObjectAsync async_env obj sortKeys = hashObject sync_env obj sortKeys)
  /\ (forall data expectedHash,
        verifyHashAsync async_env data expectedHash
        = verifyHash sync_env data expectedHash)
  /\ (forall data expectedHash depth options,
        1 <= depth <= 256 ->
        verifyInfinityHashAsync async_env data expectedHash depth options
        = verifyInfinityHash sync_env data expectedHash depth options).
Proof.
  intros Cs Ca. split; [|split].
  - intros obj sortKeys. unfold hashObjectAsync, hashObject. cbv zeta.
    rewrite (sha256Async_available _ _ Ca), (sha256_node _ _ Cs). reflexivity.
  - intros data expectedHash. unfold verifyHashAsync, verifyHash.
    rewrite (sha256Async_available _ _ Ca), (sha256_node _ _ Cs). reflexivity.
  - intros data expectedHash depth options H.
    unfold verifyInfinityHashAsync, verifyInfinityHash.
    rewrite (shaInfinityAsync_chained _ _ _ _ Ca H).
    rewrite (shaInfinity_chained _ _ _ _ Cs H). reflexivity.
Qed.

Lemma async_counterparts_agree_witness :
  crypto node = true
  /\ (crypto browser = true \/ window_crypto_subtle browser = true)
  /\ hashObjectAsync browser (JArray [JNumber 1]) true
     = hashObject node (JArray [JNumber 1]) true.
Proof.
  split; [reflexivity|]. split; [right; reflexivity|].
  apply (async_counterparts_agree node browser);
    [reflexivity | right; reflexivity].
Defined.

(** X6: the asynchronous chained hash throws one combined message for a
    depth below 1 or above 256, in every environment and before any
    digest call; that message is neither of the two the synchronous one
    throws.  At a depth in [1, 256] it returns a digest wherever a
    primitive is there. *)
Theorem shaInfinityAsync_depth_bounds (env : Env) (data : string)
  (options : Options) :
  (forall depth,
     depth < 1 \/ 256 < depth ->
     shaInfinityAsync env data depth options
     = Throw (Error "Depth must be between 1 and 256"))
  /\ ~ InvalidDepthError (Error "Depth must be between 1 and 256")
  /\ (crypto env = true \/ window_crypto_subtle env = true ->
      forall depth,
        (exists digest, shaInfinityAsync env data depth options = Return digest)
        <-> 1 <= depth <= 256).
Proof.
  assert (T : forall depth,
            depth < 1 \/ 256 < depth ->
            shaInfinityAsync env data depth options
            = Throw (Error "Depth must be between 1 and 256")).
  { intros depth H. unfold shaInfinityAsync. cbv zeta.
    replace ((depth <? minDepth DEFAULT_CONFIG)
             || (depth >? maxDepth DEFAULT_CONFIG)) with true; [reflexivity|].
    symmetry. apply orb_true_iff. cbn [minDepth maxDepth DEFAULT_CONFIG].
    rewrite Z.gtb_ltb, !Z.ltb_lt. exact H. }
  split; [exact T|]. split.
  - intros [H|H]; discriminate H.
  - intros A depth. split.
    + intros [digest E]. apply (shaInfinityAsync_returns _ _ _ _ _ E).
    + intros H. eexists. apply shaInfinityAsync_chained; assumption.
Qed.

Lemma shaInfinityAsync_depth_bounds_witness :
  (0 < 1 \/ 256 < 0)
  /\ shaInfinityAsync browser "hello" 0 no_options
     = Throw (Error "Depth must be between 1 and 256").
Proof.
  split; [left; lia|].
  apply (shaInfinityAsync_depth_bounds browser "hello" no_options). left. lia.
Defined.

(** ** Identifiers *)

Lemma substring_prefix_length (n : nat) (s : string) :
  (n <= String.length s)%nat -> String.length (substring 0 n s) = n.
Proof.
  revert s. induction n as [|n IH]; intros s H.
  - destruct s; reflexivity.
  - destruct s as [|c s]; [cbn in H; lia|]. cbn [substring String.length].
    rewrite IH; [reflexivity | cbn [String.length] in H; lia].
Qed.

Lemma substring_prefix_chars (p : ascii -> bool) (n : nat) (s : string) :
  all_chars p s = true -> all_chars p (substring 0 n s) = true.
Proof.
  revert s. induction n as [|n IH]; intros s H.
  - destruct s; reflexivity.
  - destruct s as [|c s]; [reflexivity|]. cbn [substring all_chars] in *.
    apply andb_prop in H. destruct H as [Hc Hs]. rewrite Hc, (IH s Hs).
    reflexivity.
Qed.

Lemma substring_prefix_startsWith (n : nat) (s : string) :
  startsWith s (substring 0 n s) = true.
Proof.
  unfold startsWith. revert s. induction n as [|n IH]; intros s.
  - destruct s; reflexivity.
  - destruct s as [|c s]; [reflexivity|]. cbn [substring String.prefix].
    destruct (ascii_dec c c) as [_|N]; [apply IH | congruence].
Qed.

Lemma is_digest_parts (h : string) :
  is_digest h = true ->
  String.length h = 64%nat /\ all_chars is_lower_hex h = true.
Proof.
  unfold is_digest. intros H. apply andb_prop in H. destruct H as [L A].
  apply Nat.eqb_eq in L. split; assumption.
Qed.

(** X7: under Node, [generateInfinityId] returns sixteen and
    [generateHashId] twelve lowercase hexadecimal characters, whatever the
    components, the clock and the random number are: the first characters
    of the chained hash at depth 3 without depth binding, and of the
    plain digest, of the joined text. *)
Theorem generated_ids_form (env : Env) (now : Z) (random : string)
  (components : list string) :
  crypto env = true ->
  (exists id h,
     generateInfinityId env now random components = Return id
     /\ shaInfinity env
          (join ":" components ++ ":" ++ decimal now ++ ":" ++ random) 3
          (mkOptions None None (Some false)) = Return h
     /\ startsWith h id = true
     /\ String.length id = 16%nat
     /\ all_chars is_lower_hex id = true)
  /\ (exists id h,
        generateHashId env now components = Return id
        /\ sha256 env (join ":" components ++ ":" ++ decimal now) = Return h
        /\ startsWith h id = true
        /\ String.length id = 12%nat
        /\ all_chars is_lower_hex id = true).
Proof.
  intros C. split.
  - unfold generateInfinityId. cbv zeta.
    rewrite (shaInfinity_chained env _ 3 _ C) by lia. cbn [bind].
    destruct (is_digest_parts _ (chained_is_digest
                (join ":" components ++ ":" ++ decimal now ++ ":" ++ random)
                3 (mkOptions None None (Some false)))) as [L A].
    eexists. eexists. split; [reflexivity|]. split; [reflexivity|].
    split; [apply substring_prefix_startsWith|].
    split; [apply substring_prefix_length; rewrite L; lia|].
    apply substring_prefix_chars. exact A.
  - unfold generateHashId. cbv zeta.
    rewrite (sha256_node env _ C). cbn [bind].
    destruct (is_digest_parts _ (createHash_is_digest
                (join ":" components ++ ":" ++ decimal now))) as [L A].
    eexists. eexists. split; [reflexivity|]. split; [reflexivity|].
    split; [apply substring_prefix_startsWith|].
    split; [apply substring_prefix_length; rewrite L; lia|].
    apply substring_prefix_chars. exact A.
Qed.

Lemma generated_ids_form_witness :
  crypto node = true
  /\ exists id h,
       generateInfinityId node 1700000000000 "0.5" ["a"; "b"] = Return id
       /\ shaInfinity node
            (join ":" ["a"; "b"] ++ ":" ++ decimal 1700000000000 ++ ":" ++ "0.5")
            3 (mkOptions None None (Some false)) = Return h
       /\ startsWith h id = true
       /\ String.length id = 16%nat
       /\ all_chars is_lower_hex id = true.
Proof.
  split; [reflexivity|].
  apply (generated_ids_form node 1700000000000 "0.5" ["a"; "b"]). reflexivity.
Defined.

(** ** The two serializations *)

Lemma json_induction (P : json -> Prop) :
  P JNull -> (forall b, P (JBool b)) -> (forall n, P (JNumber n)) ->
  (forall s, P (JString s)) ->
  (forall l, Forall P l -> P (JArray l)) ->
  (forall p, Forall (fun kv => P (snd kv)) p -> P (JObject p)) ->
  forall v, P v.
Proof.
  intros Hn Hb Hz Hs Ha Ho. fix IH 1. intros [| b | n | s | l | p].
  - exact Hn.
  - apply Hb.
  - apply Hz.
  - apply Hs.
  - apply Ha. revert l. fix IHl 1. intros [|x l]; constructor;
      [apply IH | apply IHl].
  - apply Ho. revert p. fix IHp 1. intros [|[k x] p]; constructor;
      [apply IH | apply IHp].
Qed.

Lemma compare_refl (s : string) : String.compare s s = Eq.
Proof.
  induction s as [|c s IH]; [reflexivity|]. cbn [String.compare].
  unfold Ascii.compare. rewrite N.compare_refl. exact IH.
Qed.

Lemma compare_lt_trans (s1 : string) :
  forall s2 s3,
    String.compare s1 s2 = Lt -> String.compare s2 s3 = Lt ->
    String.compare s1 s3 = Lt.
Proof.
  induction s1 as [|c1 s1 IH]; intros [|c2 s2] [|c3 s3];
    cbn [String.compare]; try congruence.
  unfold Ascii.compare.
  destruct (N.compare_spec (N_of_ascii c1) (N_of_ascii c2));
    destruct (N.compare_spec (N_of_ascii c2) (N_of_ascii c3));
    destruct (N.compare_spec (N_of_ascii c1) (N_of_ascii c3));
    try congruence; try lia.
  apply IH.
Qed.

Lemma ltb_lt (a b : string) :
  String.ltb a b = true <-> String.compare a b = Lt.
Proof.
  unfold String.ltb. destruct (String.compare a b); split; congruence.
Qed.

Lemma ltb_leb (a b : string) :
  String.ltb a b = true -> String.leb a b = true.
Proof.
  rewrite ltb_lt. unfold String.leb. intros ->. reflexivity.
Qed.

Lemma ascending_cons (a : string) (l : list string) :
  ascending (a :: l) = true ->
  ascending l = true /\ Forall (fun x => String.ltb a x = true) l.
Proof.
  revert a. induction l as [|b l IH]; intros a H.
  - split; [reflexivity | constructor].
  - cbn [ascending] in H. apply andb_prop in H. destruct H as [Hab Hl].
    split; [exact Hl|]. constructor; [exact Hab|].
    destruct (IH b Hl) as [_ F]. revert F. apply Forall_impl.
    intros x Hbx. apply ltb_lt. apply (compare_lt_trans a b x); apply ltb_lt;
      assumption.
Qed.

Lemma ascending_NoDup (l : list string) : ascending l = true -> NoDup l.
Proof.
  induction l as [|a l IH]; intros H; [constructor|].
  destruct (ascending_cons a l H) as [Hl F]. constructor; [|apply IH; exact Hl].
  intros I. rewrite Forall_forall in F. specialize (F a I).
  apply ltb_lt in F. rewrite compare_refl in F. discriminate F.
Qed.

Lemma ascending_sort (l : list string) : ascending l = true -> sort l = l.
Proof.
  unfold sort. induction l as [|a l IH]; intros H; [reflexivity|].
  destruct (ascending_cons a l H) as [Hl F]. cbn [fold_right].
  rewrite (IH Hl). destruct l as [|b l]; [reflexivity|]. cbn [sort_insert].
  inversion F as [|? ? Hab _]. rewrite (ltb_leb a b Hab). reflexivity.
Qed.

Lemma get_head {A : Type} (k : string) (v : A) (p : list (string * A)) :
  get ((k, v) :: p) k = Some v.
Proof. cbn [get]. rewrite String.eqb_refl. reflexivity. Qed.

Lemma get_tail {A : Type} (k key : string) (v : A) (p : list (string * A)) :
  k <> key -> get ((k, v) :: p) key = get p key.
Proof.
  intros N. cbn [get]. apply String.eqb_neq in N. rewrite N. reflexivity.
Qed.

Lemma map_keys_get {A B : Type} (F : string -> option A -> B)
  (p : list (string * A)) :
  NoDup (Object_keys p) ->
  map (fun key => F key (get p key)) (Object_keys p)
  = map (fun kv => F (fst kv) (Some (snd kv))) p.
Proof.
  induction p as [|[k v] p IH]; intros N; [reflexivity|].
  cbn [Object_keys map fst snd] in *. inversion N as [|? ? Hk Hp]. subst.
  rewrite get_head. f_equal. rewrite <- (IH Hp). apply map_ext_in.
  intros key I. rewrite get_tail; [reflexivity|]. intros ->. exact (Hk I).
Qed.

Lemma JSON_stringify_JObject (p : list (string * json)) :
  JSON_stringify (JObject p)
  = "{" ++ join ","
             (map (fun kv =>
                     JSON_stringify_string (fst kv) ++ ":"
                       ++ JSON_stringify (snd kv)) p)
        ++ "}".
Proof.
  cbn [JSON_stringify]. do 3 f_equal. apply map_ext. intros [k v]. reflexivity.
Qed.

Lemma JSON_stringify_JArray (l : list json) :
  JSON_stringify (JArray l) = "[" ++ join "," (map JSON_stringify l) ++ "]".
Proof. reflexivity. Qed.

Lemma sorted_keys_JObject (p : list (string * json)) :
  sorted_keys (JObject p)
  = ascending (Object_keys p) && forallb (fun kv => sorted_keys (snd kv)) p.
Proof.
  cbn [sorted_keys]. f_equal.
  induction p as [|[k v] p IH]; [reflexivity|].
  cbn [forallb snd]. rewrite IH. reflexivity.
Qed.

Lemma JSON_stringify_sorted (v : json) :
  sorted_keys v = true -> JSON_stringify v = stableStringify v.
Proof.
  induction v as [| b | n | s | l IH | p IH] using json_induction;
    try reflexivity.
  - intros S. cbn [sorted_keys] in S.
    rewrite JSON_stringify_JArray, stableStringify_JArray. do 3 f_equal.
    induction IH as [|x l Hx _ IHl]; [reflexivity|].
    cbn [forallb] in S. apply andb_prop in S. destruct S as [Sx Sl].
    cbn [map]. rewrite (Hx Sx), (IHl Sl). reflexivity.
  - intros S. rewrite sorted_keys_JObject in S. apply andb_prop in S.
    destruct S as [A S].
    rewrite JSON_stringify_JObject, stableStringify_object.
    rewrite (ascending_sort _ A).
    rewrite (map_keys_get
               (fun key o => JSON_stringify_string key ++ ":"
                             ++ match o with
                                | Some value => stableStringify value
                                | None => "undefined"
                                end) p (ascending_NoDup _ A)).
    do 3 f_equal. clear A.
    induction IH as [|[k x] p Hx _ IHp]; [reflexivity|].
    cbn [forallb snd] in S. apply andb_prop in S. destruct S as [Sx Sp].
    cbn [map fst snd] in *. rewrite (Hx Sx), (IHp Sp). reflexivity.
Qed.

(** X8: on a value whose objects all list their properties by ascending
    key, [JSON.stringify] and [stableStringify] write the same string, so
    [hashObject] gives the same digest with and without [sortKeys]. *)
Theorem hashObject_sorted_keys (env : Env) (obj : json) :
  sorted_keys obj = true ->
  JSON_stringify obj = stableStringify obj
  /\ hashObject env obj false = hashObject env obj true
  /\ hashObjectAsync env obj false = hashObjectAsync env obj true.
Proof.
  intros S. pose proof (JSON_stringify_sorted obj S) as E.
  unfold hashObject, hashObjectAsync. cbv zeta. rewrite E. repeat split.
Qed.

Lemma hashObject_sorted_keys_witness :
  sorted_keys (JObject [("a", JNumber 1); ("b", JArray [JObject [("x", JNull)]])])
  = true
  /\ hashObject node
       (JObject [("a", JNumber 1); ("b", JArray [JObject [("x", JNull)]])]) false
     = hashObject node
         (JObject [("a", JNumber 1); ("b", JArray [JObject [("x", JNull)]])]) true.
Proof.
  split; [reflexivity|].
  apply (hashObject_sorted_keys node
           (JObject [("a", JNumber 1); ("b", JArray [JObject [("x", JNull)]])])).
  reflexivity.
Defined.

Lemma stableStringify_same_content_sym (v w : json) :
  same_content v w \/ same_content w v ->
  stableStringify v = stableStringify w.
Proof.
  intros [H|H]; [|symmetry]; apply stableStringify_same_content; exact H.
Qed.

(** X9: the digests and the key of a value do not depend on the order in
    which its objects list their properties: [hashObject] with sorted
    keys, [hashObjectInfinity] and [contentKey] give the same result on
    two values with the same content.  Under Node the key is ["sha256:"]
    followed by the sixty-four lowercase hexadecimal characters of the
    digest of the canonical serialization. *)
Theorem content_hashes_ignore_key_order (env : Env) (v w : json) :
  same_content v w \/ same_content w v ->
  hashObject env v true = hashObject env w true
  /\ (forall depth options,
        hashObjectInfinity env v depth options
        = hashObjectInfinity env w depth options)
  /\ contentKey env v = contentKey env w
  /\ (crypto env = true ->
      exists h,
        contentKey env v = Return ("sha256:" ++ h)
        /\ sha256 env (stableStringify w) = Return h
        /\ is_digest h = true).
Proof.
  intros S. pose proof (stableStringify_same_content_sym v w S) as E.
  unfold contentKey, hashObject, hashObjectInfinity. cbv zeta. rewrite E.
  repeat split. intros C. rewrite (sha256_node env _ C). cbn [bind].
  eexists. split; [reflexivity|]. split; [reflexivity|].
  apply createHash_is_digest.
Qed.

Lemma content_hashes_ignore_key_order_witness :
  (same_content (JObject [("b", JNumber 2); ("a", JNumber 1)])
     (JObject [("a", JNumber 1); ("b", JNumber 2)])
   \/ same_content (JObject [("a", JNumber 1); ("b", JNumber 2)])
        (JObject [("b", JNumber 2); ("a", JNumber 1)]))
  /\ contentKey node (JObject [("b", JNumber 2); ("a", JNumber 1)])
     = contentKey node (JObject [("a", JNumber 1); ("b", JNumber 2)]).
Proof.
  assert (S : same_content (JObject [("b", JNumber 2); ("a", JNumber 1)])
                (JObject [("a", JNumber 1); ("b", JNumber 2)])).
  { apply (sc_object _ [("a", JNumber 1); ("b", JNumber 2)]).
    - repeat constructor; cbn; intuition discriminate.
    - apply perm_swap.
    - repeat constructor; apply sc_refl. }
  split; [left; exact S|].
  apply (content_hashes_ignore_key_order node _ _ (or_introl S)).
Defined.

(** ** The integrity record and its users *)

Lemma createStateIntegrity_node (env : Env) (now : Z) (state : json)
  (depth : Z) :
  crypto env = true -> 1 <= depth <= 256 ->
  createStateIntegrity env now state depth
  = Return (mkIntegrityRecord (createHash_sha256_hex (stableStringify state))
              (chained (stableStringify state) depth no_options) depth now
              "1.0.0" "sha-infinity-v1").
Proof.
  intros C H. unfold createStateIntegrity. cbv zeta.
  rewrite (sha256_node env _ C). cbn [bind].
  rewrite (shaInfinity_chained env _ _ _ C H). reflexivity.
Qed.

(** X10: under Node, for a record with a [chain_depth] in [1, 256] the
    verification returns a result, and [valid] is true exactly when the
    record's [sha256] is what [hashObject] gives for the state and its
    [sha_infinity] what [hashObjectInfinity] gives at the record's depth;
    the result carries the clock as [checked_at] and the record's
    timestamp.  For a record with a [chain_depth] outside [1, 256] the
    verification throws the depth error instead of answering. *)
Theorem verifyStateIntegrity_outcomes (env : Env) (now : Z) (state : json)
  (integrity : IntegrityRecord) :
  crypto env = true ->
  (1 <= chain_depth integrity <= 256 ->
   exists result,
     verifyStateIntegrity env now state integrity = Return result
     /\ (valid result = true
         <-> hashObject env state true = Return (rec_sha256 integrity)
             /\ hashObjectInfinity env state (chain_depth integrity) no_options
                = Return (rec_sha_infinity integrity))
     /\ valid result = sha256_valid result && sha_infinity_valid result
     /\ checked_at result = now
     /\ original_timestamp result = timestamp integrity)
  /\ (chain_depth integrity < 1 \/ 256 < chain_depth integrity ->
      exists e,
        verifyStateIntegrity env now state integrity = Throw e
        /\ InvalidDepthError e).
Proof.
  intros C. split.
  - intros H. rewrite (verifyStateIntegrity_node env now state integrity C H).
    eexists. split; [reflexivity|]. cbv zeta.
    cbn [valid sha256_valid sha_infinity_valid checked_at original_timestamp].
    unfold hashObject, hashObjectInfinity. cbv zeta.
    rewrite (sha256_node env _ C), (shaInfinity_chained env _ _ _ C H).
    split; [|repeat split]. rewrite andb_true_iff, !String.eqb_eq.
    split; intros [A B]; split; congruence.
  - intros H. unfold verifyStateIntegrity. cbv zeta.
    rewrite (sha256_node env _ C). cbn [bind]. destruct H as [H|H].
    + rewrite shaInfinity_too_low by exact H. eexists.
      split; [reflexivity | left; reflexivity].
    + rewrite shaInfinity_too_high by exact H. eexists.
      split; [reflexivity | right; reflexivity].
Qed.

Lemma verifyStateIntegrity_outcomes_witness :
  crypto node = true
  /\ (0 < 1 \/ 256 < 0)
  /\ exists e,
       verifyStateIntegrity node 9 (JArray [])
         (mkIntegrityRecord "x" "y" 0 5 "1.0.0" "sha-infinity-v1") = Throw e
       /\ InvalidDepthError e.
Proof.
  split; [reflexivity|]. split; [left; lia|].
  apply (verifyStateIntegrity_outcomes node 9 (JArray [])
           (mkIntegrityRecord "x" "y" 0 5 "1.0.0" "sha-infinity-v1"));
    [reflexivity | left; cbn; lia].
Defined.

(** X11: a record created from a state verifies against any state with
    the same content, whatever the order in which the objects of the two
    list their properties. *)
Theorem verify_ignores_key_order (env : Env) (now now' : Z)
  (state state' : json) (depth : Z) :
  crypto env = true -> 1 <= depth <= 256 ->
  same_content state state' \/ same_content state' state ->
  exists record result,
    createStateIntegrity env now state depth = Return record
    /\ verifyStateIntegrity env now' state' record = Return result
    /\ valid result = true.
Proof.
  intros C H S. pose proof (stableStringify_same_content_sym _ _ S) as E.
  eexists. eexists. split; [apply createStateIntegrity_node; assumption|].
  split; [apply verifyStateIntegrity_node; [exact C | exact H]|].
  cbn [rec_sha256 rec_sha_infinity chain_depth valid]. cbv zeta.
  cbn [valid]. rewrite E, !String.eqb_refl. reflexivity.
Qed.

Lemma verify_ignores_key_order_witness :
  crypto node = true /\ 1 <= 2 <= 256
  /\ exists record result,
       createStateIntegrity node 5
         (JObject [("b", JNumber 2); ("a", JNumber 1)]) 2 = Return record
       /\ verifyStateIntegrity node 9
            (JObject [("a", JNumber 1); ("b", JNumber 2)]) record
          = Return result
       /\ valid result = true.
Proof.
  split; [reflexivity|]. split; [lia|].
  apply (verify_ignores_key_order node 5 9
           (JObject [("b", JNumber 2); ("a", JNumber 1)])
           (JObject [("a", JNumber 1); ("b", JNumber 2)]) 2);
    [reflexivity | lia |].
  left. apply (sc_object _ [("a", JNumber 1); ("b", JNumber 2)]).
  - repeat constructor; cbn; intuition discriminate.
  - apply perm_swap.
  - repeat constructor; apply sc_refl.
Defined.

(** X12: under Node the [SHA256] that [compute_hash] of sync-state.sh
    prints is the [sha256] field of the record [createStateIntegrity]
    makes of the same state at the default depth 7.  Its [SHA_INFINITY],
    taken over [JSON.stringify], is the [sha_infinity] field when the
    objects of the state list their properties by ascending key, and a
    record put together from the two printed values then verifies; for
    the state [{b:2, a:1}] the two differ. *)
Theorem compute_hash_and_integrity_record (env : Env) (now : Z)
  (state : json) :
  crypto env = true ->
  (exists record,
     createStateIntegrity env now state (defaultDepth DEFAULT_CONFIG)
     = Return record
     /\ compute_hash_SHA256 env state = rec_sha256 record
     /\ (sorted_keys state = true ->
         compute_hash_SHA_INFINITY env state = rec_sha_infinity record
         /\ forall now' ts v a,
              exists result,
                verifyStateIntegrity env now' state
                  (mkIntegrityRecord (compute_hash_SHA256 env state)
                     (compute_hash_SHA_INFINITY env state) 7 ts v a)
                = Return result
                /\ valid result = true))
  /\ compute_hash_SHA_INFINITY node
       (JObject [("b", JNumber 2); ("a", JNumber 1)])
     <> chained (stableStringify (JObject [("b", JNumber 2); ("a", JNumber 1)]))
          7 no_options.
Proof.
  intros C. split.
  - cbn [defaultDepth DEFAULT_CONFIG].
    rewrite (createStateIntegrity_node env now state 7 C) by lia.
    eexists. split; [reflexivity|]. cbn [rec_sha256 rec_sha_infinity].
    assert (A : compute_hash_SHA256 env state
                = createHash_sha256_hex (stableStringify state)).
    { unfold compute_hash_SHA256, hashObject. cbv zeta.
      rewrite (sha256_node env _ C). reflexivity. }
    split; [exact A|]. intros S.
    assert (B : compute_hash_SHA_INFINITY env state
                = chained (stableStringify state) 7 no_options).
    { unfold compute_hash_SHA_INFINITY.
      rewrite (shaInfinity_chained env _ 7 _ C) by lia.
      rewrite (JSON_stringify_sorted state S). reflexivity. }
    split; [exact B|]. intros now' ts v a.
    rewrite verifyStateIntegrity_node by (try exact C; cbn; lia).
    eexists. split; [reflexivity|]. cbv zeta.
    cbn [valid rec_sha256 rec_sha_infinity chain_depth].
    rewrite A, B, !String.eqb_refl. reflexivity.
  - assert (A : compute_hash_SHA_INFINITY node
                  (JObject [("b", JNumber 2); ("a", JNumber 1)])
                = "3133b2ba8e350a129b564da863962751caa71f2bd9675ff81b59a8732aed3499")
      by (vm_compute; reflexivity).
    assert (B : chained
                  (stableStringify (JObject [("b", JNumber 2); ("a", JNumber 1)]))
                  7 no_options
                = "a5167626acbe41a21816099cfd9f4f861db47b3cd4f0b5e52bc70ce42c9cc6d1")
      by (vm_compute; reflexivity).
    rewrite A, B. discriminate.
Qed.

Lemma compute_hash_and_integrity_record_witness :
  crypto node = true
  /\ exists record,
       createStateIntegrity node 5 (JObject [("a", JNumber 1)])
         (defaultDepth DEFAULT_CONFIG) = Return record
       /\ compute_hash_SHA256 node (JObject [("a", JNumber 1)])
          = rec_sha256 record.
Proof.
  split; [reflexivity|].
  destruct (proj1 (compute_hash_and_integrity_record node 5
                     (JObject [("a", JNumber 1)]) eq_refl))
    as [record [H1 [H2 _]]].
  exists record. split; assumption.
Defined.

(** ** More on the Merkle root *)

Lemma mapM_return {A B : Type} (f : A -> completion B) (g : A -> B)
  (l : list A) :
  (forall a, In a l -> f a = Return (g a)) -> mapM f l = Return (map g l).
Proof.
  induction l as [|a l IH]; intros E; [reflexivity|]. cbn [mapM map].
  rewrite (E a) by (left; reflexivity). cbn [bind].
  rewrite IH by (intros; apply E; right; assumption). reflexivity.
Qed.

Lemma pairs_even_app (l l' : list string) :
  Nat.Even (List.length l) -> pairs (l ++ l') = (pairs l ++ pairs l')%list.
Proof.
  induction l as [| x | a b rest IH] using pairs_ind; intros E.
  - reflexivity.
  - destruct E as [k E]. cbn in E. lia.
  - cbn [pairs app]. rewrite <- IH; [reflexivity|].
    destruct E as [k E]. cbn [List.length] in E. exists (k - 1)%nat. lia.
Qed.

Lemma infinityMerkleRoot_levels (env : Env) (depth : Z) :
  crypto env = true -> 1 <= depth <= 256 ->
  forall (n : nat) (hashes : list string),
    (List.length hashes <= n)%nat -> (2 <= List.length hashes)%nat ->
    exists root,
      infinityMerkleRoot env hashes depth = Some (Return root)
      /\ is_digest root = true.
Proof.
  intros C H. induction n as [|n IH]; intros hashes Ln L2; [lia|].
  rewrite infinityMerkleRoot_step by exact L2.
  rewrite pair_level_pairs.
  rewrite (mapM_return _
             (fun lr => chained (fst lr ++ or_else (Some (snd lr)) (fst lr))
                          depth (mkOptions None None (Some false))))
    by (intros; apply shaInfinity_chained; assumption).
  pose proof (pairs_length_bound hashes) as B.
  destruct hashes as [|l [|r rest]]; try (cbn in L2; lia).
  cbn [pairs map] in *. cbn [List.length] in *.
  destruct (map _ (pairs rest)) as [|y ys] eqn:M.
  - eexists. split; [reflexivity | apply chained_is_digest].
  - apply IH; [|cbn [List.length]; lia].
    rewrite <- M. cbn [List.length]. rewrite length_map. lia.
Qed.

(** X13: under Node and at a depth in [1, 256] the Merkle root of no
    hashes or of two or more hashes, whatever strings they are, is
    returned and is sixty-four lowercase hexadecimal characters. *)
Theorem infinityMerkleRoot_returns_digest (env : Env) (depth : Z)
  (hashes : list string) :
  crypto env = true -> 1 <= depth <= 256 ->
  List.length hashes <> 1%nat ->
  exists root,
    infinityMerkleRoot env hashes depth = Some (Return root)
    /\ is_digest root = true.
Proof.
  intros C H L. destruct hashes as [|l [|r rest]].
  - exists (chained "empty" depth no_options). split;
      [|apply chained_is_digest].
    change (infinityMerkleRoot env [] depth)
      with (Some (shaInfinity env "empty" depth no_options)).
    rewrite (shaInfinity_chained env _ _ _ C H). reflexivity.
  - cbn in L. congruence.
  - apply (infinityMerkleRoot_levels env depth C H
             (List.length (l :: r :: rest))); cbn [List.length]; lia.
Qed.

Lemma infinityMerkleRoot_returns_digest_witness :
  crypto node = true /\ 1 <= 1 <= 256
  /\ List.length ["a"; EmptyString; "c"] <> 1%nat
  /\ exists root,
       infinityMerkleRoot node ["a"; EmptyString; "c"] 1 = Some (Return root)
       /\ is_digest root = true.
Proof.
  split; [reflexivity|]. split; [lia|]. split; [discriminate|].
  apply (infinityMerkleRoot_returns_digest node 1 ["a"; EmptyString; "c"]);
    [reflexivity | lia | discriminate].
Defined.

(** X14: at a depth below 1 or above 256 the Merkle root of no hashes or
    of two or more hashes throws the depth error, in every environment;
    the root of exactly one hash is still returned, the depth not being
    looked at. *)
Theorem infinityMerkleRoot_invalid_depth (env : Env) (depth : Z) :
  depth < 1 \/ 256 < depth ->
  (forall hashes,
     List.length hashes <> 1%nat ->
     exists e,
       infinityMerkleRoot env hashes depth = Some (Throw e)
       /\ InvalidDepthError e)
  /\ (forall h, infinityMerkleRoot env [h] depth = Some (Return h)).
Proof.
  intros H.
  assert (T : forall data options,
            exists e, shaInfinity env data depth options = Throw e
                      /\ InvalidDepthError e).
  { intros data options. destruct H as [H|H]; eexists.
    - split; [apply shaInfinity_too_low; exact H | left; reflexivity].
    - split; [apply shaInfinity_too_high; exact H | right; reflexivity]. }
  split; [|reflexivity].
  intros hashes L. destruct hashes as [|l [|r rest]].
  - destruct (T "empty" no_options) as [e [E I]]. exists e. split; [|exact I].
    change (infinityMerkleRoot env [] depth)
      with (Some (shaInfinity env "empty" depth no_options)).
    rewrite E. reflexivity.
  - cbn in L. congruence.
  - rewrite infinityMerkleRoot_step by (cbn [List.length]; lia).
    rewrite pair_level_pairs. cbn [pairs mapM]. unfold combine_pair at 1.
    cbn [fst snd].
    destruct (T (l ++ or_else (Some r) l) (mkOptions None None (Some false)))
      as [e [E I]].
    rewrite E. exists e. split; [reflexivity | exact I].
Qed.

Lemma infinityMerkleRoot_invalid_depth_witness :
  (0 < 1 \/ 256 < 0)
  /\ infinityMerkleRoot node ["a"] 0 = Some (Return "a")
  /\ exists e,
       infinityMerkleRoot node ["a"; "b"] 0 = Some (Throw e)
       /\ InvalidDepthError e.
Proof.
  split; [left; lia|].
  destruct (infinityMerkleRoot_invalid_depth node 0 (or_introl eq_refl))
    as [A B].
  split; [apply B|]. apply A. discriminate.
Defined.

(** X15: a list of odd length, three or more, has the root of the list
    with its last element written twice: two different lists of hashes
    with one root. *)
Theorem infinityMerkleRoot_duplicated_last (env : Env) (depth : Z)
  (hashes : list string) (h : string) :
  Nat.Even (List.length hashes) -> (2 <= List.length hashes)%nat ->
  infinityMerkleRoot env (hashes ++ [h]) depth
  = infinityMerkleRoot env (hashes ++ [h; h]) depth.
Proof.
  intros E L.
  rewrite (infinityMerkleRoot_step env depth (hashes ++ [h]))
    by (rewrite length_app; cbn [List.length]; lia).
  rewrite (infinityMerkleRoot_step env depth (hashes ++ [h; h]))
    by (rewrite length_app; cbn [List.length]; lia).
  rewrite !pair_level_pairs, !(pairs_even_app hashes) by exact E.
  reflexivity.
Qed.

Lemma infinityMerkleRoot_duplicated_last_witness :
  Nat.Even (List.length ["a"; "b"]) /\ (2 <= List.length ["a"; "b"])%nat
  /\ infinityMerkleRoot node ["a"; "b"; "c"] 2
     = infinityMerkleRoot node ["a"; "b"; "c"; "c"] 2.
Proof.
  assert (E : Nat.Even (List.length ["a"; "b"])) by (exists 1%nat; reflexivity).
  split; [exact E|]. split; [cbn; lia|].
  apply (infinityMerkleRoot_duplicated_last node 2 ["a"; "b"] "c" E).
  cbn. lia.
Defined.

(** ** More on the proof-of-work search *)


Lemma leading_zeros_le_length (s : string) :
  (leading_zeros s <= String.length s)%nat.
Proof.
  induction s as [|c s IH]; [cbn; lia|]. cbn [leading_zeros String.length].
  destruct (Ascii.eqb c "0"); lia.
Qed.



Lemma startsWith_empty (s : string) : startsWith s EmptyString = true.
Proof. destruct s; reflexivity. Qed.

(** X17: at difficulty 0, under Node and at a depth in [1, 256], the
    search stops at its first attempt: nonce 0, one attempt, verified,
    with the chained hash of the data followed by [":0"]. *)
Theorem proofOfWork_difficulty_zero (env : Env) (data : string) (depth : Z) :
  crypto env = true -> 1 <= depth <= 256 ->
  exists h,
    shaInfinity env (data ++ ":0") depth (mkOptions None None (Some false))
    = Return h
    /\ proofOfWork env data 0 depth
       = Some (Return (mkProofOfWork h 0 1 true)).
Proof.
  intros C H. eexists. split; [apply shaInfinity_chained; assumption|].
  apply (proofOfWork_more_fuel env data 0 depth 1); [|lia].
  unfold proofOfWork_fuel. rewrite String_repeat_zeros by lia.
  cbn [Z.to_nat repeat_nat].
  rewrite proofOfWork_loop_S. unfold attempt.
  change (decimal 0) with "0".
  rewrite (shaInfinity_chained env _ depth _ C H).
  rewrite startsWith_empty. cbn [negb andb].
  rewrite startsWith_empty. reflexivity.
Qed.

Lemma proofOfWork_difficulty_zero_witness :
  crypto node = true /\ 1 <= 1 <= 256
  /\ exists h,
       shaInfinity node ("a" ++ ":0") 1 (mkOptions None None (Some false))
       = Return h
       /\ proofOfWork node "a" 0 1 = Some (Return (mkProofOfWork h 0 1 true)).
Proof.
  split; [reflexivity|]. split; [lia|].
  apply (proofOfWork_difficulty_zero node "a" 1); [reflexivity | lia].
Defined.

(** X18: at a difficulty above 64 that the engine can still write as
    a string of zeros, under Node and at a depth in [1, 256], no hash can
    have that many leading zeros: the search uses its whole budget and
    returns the hash of nonce 9,999,999 with [attempts] 10,000,000 and
    [verified] false.  At a difficulty above the longest string the
    engine makes the search throws a [RangeError] and tries nothing. *)
Theorem proofOfWork_difficulty_above_64 (env : Env) (data : string)
  (difficulty depth : Z) :
  (crypto env = true -> 1 <= depth <= 256 ->
   64 < difficulty <= Z.of_N (max_string_length env) ->
   exists h,
     attempt env data depth 9999999 = Return h
     /\ proofOfWork env data difficulty depth
        = Some (Return (mkProofOfWork h 9999999 10000000 false)))
  /\ (Z.of_N (max_string_length env) < difficulty ->
      exists message,
        proofOfWork env data difficulty depth
        = Some (Throw (RangeError message))).
Proof.
  split.
  - intros C H D.
    destruct (proofOfWork_loop_total env data depth
                (repeat_nat "0" (Z.to_nat difficulty)) C H
                (Z.to_nat 10000000) 0) as [h [n' R]]; [lia | lia |].
    destruct (proofOfWork_loop_spec _ _ _ _ _ _ _ _ R) as [I1 [I2 [I3 [I4 _]]]].
    assert (F : startsWith h (repeat_nat "0" (Z.to_nat difficulty)) = false).
    { destruct (startsWith h _) eqn:S; [|reflexivity].
      apply startsWith_zeros in S.
      pose proof (leading_zeros_le_length h) as B.
      unfold attempt in I3.
      pose proof (proj2 (shaInfinity_returns_digest _ _ _ _ _ I3)) as L.
      lia. }
    specialize (I4 F). assert (N : n' = 10000000) by lia. subst n'.
    exists h. split; [exact I3|].
    unfold proofOfWork, proofOfWork_fuel.
    rewrite String_repeat_zeros by lia.
    rewrite R, F. reflexivity.
  - intros D.
    destruct (String_repeat_throws (max_string_length env) difficulty)
      as [message T]; [right; exact D|].
    exists message. unfold proofOfWork, proofOfWork_fuel. rewrite T.
    reflexivity.
Qed.

Lemma proofOfWork_difficulty_above_64_witness :
  crypto node = true /\ 1 <= 7 <= 256
  /\ 64 < 65 <= Z.of_N (max_string_length node)
  /\ exists h,
       attempt node "task" 7 9999999 = Return h
       /\ proofOfWork node "task" 65 7
          = Some (Return (mkProofOfWork h 9999999 10000000 false)).
Proof.
  assert (H : 1 <= 7 <= 256) by lia.
  assert (D : 64 < 65 <= Z.of_N (max_string_length node)) by (cbn; lia).
  split; [reflexivity|]. split; [exact H|]. split; [exact D|].
  exact (proj1 (proofOfWork_difficulty_above_64 node "task" 65 7) eq_refl H D).
Defined.

(** X19: a negative difficulty, or one above the longest string the
    engine makes, has the search throw a [RangeError] before anything is
    hashed, whatever the depth; with a difficulty in between, a depth
    below 1 or above 256 makes it throw the depth error at its first
    attempt. *)
Theorem proofOfWork_errors (env : Env) (data : string) (difficulty depth : Z) :
  (difficulty < 0 \/ Z.of_N (max_string_length env) < difficulty ->
   exists message,
     proofOfWork env data difficulty depth = Some (Throw (RangeError message)))
  /\ (0 <= difficulty <= Z.of_N (max_string_length env) ->
      depth < 1 \/ 256 < depth ->
      exists e,
        proofOfWork env data difficulty depth = Some (Throw e)
        /\ InvalidDepthError e).
Proof.
  split.
  - intros D.
    destruct (String_repeat_throws (max_string_length env) difficulty D)
      as [message T].
    exists message. unfold proofOfWork, proofOfWork_fuel. rewrite T.
    reflexivity.
  - intros D H.
    assert (T : exists e,
              attempt env data depth 0 = Throw e /\ InvalidDepthError e).
    { unfold attempt. destruct H as [H|H]; eexists.
      - split; [apply shaInfinity_too_low; exact H | left; reflexivity].
      - split; [apply shaInfinity_too_high; exact H | right; reflexivity]. }
    destruct T as [e [E I]]. exists e. split; [|exact I].
    apply (proofOfWork_more_fuel env data difficulty depth 1); [|lia].
    unfold proofOfWork_fuel. rewrite String_repeat_zeros by exact D.
    rewrite proofOfWork_loop_S, E. reflexivity.
Qed.

Lemma proofOfWork_errors_witness :
  (-1 < 0 \/ Z.of_N (max_string_length node) < -1)
  /\ exists message,
       proofOfWork node "a" (-1) 0 = Some (Throw (RangeError message)).
Proof.
  assert (D : -1 < 0 \/ Z.of_N (max_string_length node) < -1) by (left; lia).
  split; [exact D|].
  exact (proj1 (proofOfWork_errors node "a" (-1) 0) D).
Defined.

(** ** How the chained hash composes *)

Lemma string_append_assoc (a b c : string) : (a ++ b) ++ c = a ++ b ++ c.
Proof.
  induction a as [|x a IH]; [reflexivity|]. cbn [append]. rewrite IH.
  reflexivity.
Qed.

(** X20: under Node, without depth binding the chained hash at depth
    [depth + 1] is the digest of the chained hash at [depth]; and the
    chained hash with depth binding is the digest of the one without,
    followed by [":depth:"] and the depth. *)
Theorem shaInfinity_depth_composes (env : Env) (data : string) (depth : Z)
  (useSalt : option bool) (salt : option string) :
  crypto env = true -> 1 <= depth <= 256 ->
  (depth < 256 ->
   shaInfinity env data (depth + 1) (mkOptions useSalt salt (Some false))
   = h <- shaInfinity env data depth (mkOptions useSalt salt (Some false)) ;;
     sha256 env h)
  /\ (forall includeDepthInHash,
        includeDepthInHash = None \/ includeDepthInHash = Some true ->
        shaInfinity env data depth (mkOptions useSalt salt includeDepthInHash)
        = h <- shaInfinity env data depth
                 (mkOptions useSalt salt (Some false)) ;;
          sha256 env (h ++ ":depth:" ++ decimal depth)).
Proof.
  intros C H. split.
  - intros L. rewrite !shaInfinity_chained by (try exact C; lia).
    cbn [bind]. rewrite (sha256_node env _ C). unfold chained.
    cbn [or_default opt_useSalt opt_salt opt_includeDepthInHash]. cbv zeta.
    replace (Z.to_nat (depth + 1 - 1)) with (S (Z.to_nat (depth - 1))) by lia.
    reflexivity.
  - intros inc I. rewrite !shaInfinity_chained by (try exact C; lia).
    cbn [bind]. rewrite (sha256_node env _ C). unfold chained.
    cbn [or_default opt_useSalt opt_salt opt_includeDepthInHash]. cbv zeta.
    destruct I as [-> | ->]; reflexivity.
Qed.

Lemma shaInfinity_depth_composes_witness :
  crypto node = true /\ 1 <= 2 <= 256 /\ 2 < 256
  /\ shaInfinity node "hello" (2 + 1) (mkOptions (Some false) None (Some false))
     = h <- shaInfinity node "hello" 2
              (mkOptions (Some false) None (Some false)) ;;
       sha256 node h.
Proof.
  assert (H : 1 <= 2 <= 256) by lia. assert (L : 2 < 256) by lia.
  split; [reflexivity|]. split; [exact H|]. split; [exact L|].
  exact (proj1 (shaInfinity_depth_composes node "hello" 2 (Some false) None
                  eq_refl H) L).
Defined.

(** X21: salting is prefixing: the chained hash of [data] with a salt is
    the unsalted chained hash of the salt, a colon and [data], at every
    depth and in every environment, the default salt being
    ["blackroad-infinity"].  So a salt and data that meet at another
    colon of the same text give the same hash. *)
Theorem shaInfinity_salt_is_prefix (env : Env) (data : string) (depth : Z)
  (includeDepthInHash : option bool) :
  (forall s other useSalt,
     useSalt = None \/ useSalt = Some true ->
     shaInfinity env data depth (mkOptions useSalt (Some s) includeDepthInHash)
     = shaInfinity env (s ++ ":" ++ data) depth
         (mkOptions (Some false) other includeDepthInHash))
  /\ (forall other useSalt,
        useSalt = None \/ useSalt = Some true ->
        shaInfinity env data depth (mkOptions useSalt None includeDepthInHash)
        = shaInfinity env ("blackroad-infinity:" ++ data) depth
            (mkOptions (Some false) other includeDepthInHash))
  /\ (forall s x,
        shaInfinity env data depth
          (mkOptions None (Some (s ++ ":" ++ x)) includeDepthInHash)
        = shaInfinity env (x ++ ":" ++ data) depth
            (mkOptions None (Some s) includeDepthInHash)).
Proof.
  assert (A : forall s other useSalt d,
            useSalt = None \/ useSalt = Some true ->
            shaInfinity env d depth
              (mkOptions useSalt (Some s) includeDepthInHash)
            = shaInfinity env (s ++ ":" ++ d) depth
                (mkOptions (Some false) other includeDepthInHash)).
  { intros s other useSalt d [-> | ->]; unfold shaInfinity;
      cbn [or_default opt_useSalt opt_salt opt_includeDepthInHash];
      reflexivity. }
  split; [intros; apply A; assumption|]. split.
  - intros other useSalt [-> | ->]; unfold shaInfinity;
      cbn [or_default opt_useSalt opt_salt opt_includeDepthInHash
           salt DEFAULT_CONFIG];
      reflexivity.
  - intros s x.
    rewrite (A (s ++ ":" ++ x) None None data) by (left; reflexivity).
    rewrite (A s None None (x ++ ":" ++ data)) by (left; reflexivity).
    rewrite string_append_assoc. reflexivity.
Qed.

Lemma shaInfinity_salt_is_prefix_witness :
  (@None bool = None \/ @None bool = Some true)
  /\ shaInfinity node "c" 1 (mkOptions None (Some "a:b") None)
     = shaInfinity node "a:b:c" 1 (mkOptions (Some false) None None).
Proof.
  split; [left; reflexivity|].
  apply (proj1 (shaInfinity_salt_is_prefix node "c" 1 None) "a:b" None None).
  left. reflexivity.
Defined.

(** X22: the links of the two hash chains do not mark where the previous
    hash ends and the data begins: [chainHash] hashes the plain
    concatenation, so moving text from the end of the previous hash to
    the start of the data gives the same link, and [infinityChain], which
    joins with colons, gives the same link when the text moved is bounded
    by a colon, at the same clock reading. *)
Theorem chain_links_ignore_boundary (env : Env) (previousHash x data : string) :
  chainHash env (previousHash ++ x) data = chainHash env previousHash (x ++ data)
  /\ chainHash env EmptyString data = sha256 env data
  /\ (forall now depth,
        infinityChain env now (previousHash ++ ":" ++ x) data depth
        = infinityChain env now previousHash (x ++ ":" ++ data) depth).
Proof.
  unfold chainHash, infinityChain. cbv zeta. split; [|split].
  - rewrite string_append_assoc. reflexivity.
  - reflexivity.
  - intros now depth. rewrite !string_append_assoc. reflexivity.
Qed.

(** X23: the hash [timedHash] returns comes with the timestamp it was
    given, is sixty-four lowercase hexadecimal characters, and is accepted
    by [verifyInfinityHash] for the data followed by [":timestamp:"] and
    that timestamp at the same depth. *)
Theorem timedHash_round_trip (env : Env) (data : string)
  (depth timestamp : Z) (t : TimedHash) :
  timedHash env data depth timestamp = Return t ->
  th_timestamp t = timestamp
  /\ is_digest (th_hash t) = true
  /\ verifyInfinityHash env (data ++ ":timestamp:" ++ decimal (th_timestamp t))
       (th_hash t) depth no_options
     = Return true.
Proof.
  unfold timedHash.
  destruct (shaInfinity env (data ++ ":timestamp:" ++ decimal timestamp)
              depth no_options) as [h|e] eqn:E; cbn [bind]; [|discriminate].
  intros R. inversion R. subst t. cbn [th_hash th_timestamp].
  pose proof (proj1 (shaInfinity_returns_digest _ _ _ _ _ E)) as Hh.
  assert (G : is_digest h = true) by (rewrite Hh; apply chained_is_digest).
  split; [reflexivity|]. split; [exact G|].
  unfold verifyInfinityHash. rewrite E. cbn [bind].
  rewrite (toLowerCase_digest _ G), String.eqb_refl. reflexivity.
Qed.

Lemma timedHash_round_trip_witness :
  timedHash node "hello" 1 42
  = Return (mkTimedHash
              "16fb20fbd5d1190a9bb477816d67af7c1ba3b53a2bd0bdc4d186b56ef7957b0b"
              42)
  /\ verifyInfinityHash node ("hello" ++ ":timestamp:" ++ decimal 42)
       "16fb20fbd5d1190a9bb477816d67af7c1ba3b53a2bd0bdc4d186b56ef7957b0b"
       1 no_options
     = Return true.
Proof.
  assert (E : timedHash node "hello" 1 42
              = Return (mkTimedHash
                          "16fb20fbd5d1190a9bb477816d67af7c1ba3b53a2bd0bdc4d186b56ef7957b0b"
                          42))
    by (vm_compute; reflexivity).
  split; [exact E|].
  apply (timedHash_round_trip node "hello" 1 42 _ E).
Defined.
